(** * drivechain: the reconciliation layer between mainchain and sidechain

    A shallow embedding of [drivechain/drivechain.go]: the unit conversion
    between satoshi and Wei, the 28-byte withdrawal payload codec, the
    mapping of engine records to [Deposit] and [Withdrawal] values and the
    treasury check performed by [Init].

    Conventions.
    - A [big.Int] is [Z]; a possibly-nil pointer to one is [option Z].
    - [uint64] is a [Z] in [0, 2^64); the conversion [int64(x)] is written
      out as two's-complement reinterpretation ([int64_of]).
    - [byte] and [C.uchar] are [Byte.byte]; [[]byte] and fixed-size arrays are
      [list byte].
    - A Go function that may panic returns a [go_result]; a Go function that
      returns [(T, error)] returns a pair [T * option error]. *)

From Stdlib Require Import ZArith Lia Bool.
From Stdlib Require Import Strings.Byte Strings.Ascii Strings.String.
From stdpp Require Import base list strings pretty gmap.

Local Open Scope Z_scope.

(** ** Panics *)

Module Go.

Inductive go_result (A : Type) : Type :=
| Returns (a : A)
| Panics (msg : string).
Arguments Returns {A} a.
Arguments Panics {A} msg.

#[global] Instance go_ret : MRet go_result := λ A a, Returns a.
#[global] Instance go_bind : MBind go_result := λ A B k m,
  match m with
  | Returns a => k a
  | Panics msg => Panics msg
  end.

(** [error] values built by [errors.New] and [fmt.Errorf] are identified
    with their message. *)
Definition error := string.

End Go.
Export Go.

(** ** Bytes and fixed-width integers *)

Definition byte_val (b : byte) : Z := Z.of_N (Byte.to_N b).

(** The conversion [byte(x)] of an unsigned integer keeps the low 8 bits. *)
Definition to_byte (x : Z) : byte :=
  match Byte.of_N (Z.to_N (x mod 256)) with
  | Some b => b
  | None => x00
  end.

Definition uint64_max : Z := 2 ^ 64 - 1.
Definition is_uint64 (x : Z) : Prop := 0 ≤ x ≤ uint64_max.

(** [int64(x)] for [x : uint64]: same 64 bits, read as two's complement. *)
Definition int64_of (x : Z) : Z := (x + 2 ^ 63) mod 2 ^ 64 - 2 ^ 63.

(** ** math/big *)

Module big.

Definition NewInt (x : Z) : Z := x.

Definition Mul (x y : Z) : Z := x * y.

(** Reading the number behind a pointer to a [big.Int]; a nil pointer stops
    the program with the runtime's nil-dereference panic. *)
Definition nil_dereference : string :=
  "runtime error: invalid memory address or nil pointer dereference".

Definition deref (p : option Z) : go_result Z :=
  match p with
  | Some x => Returns x
  | None => Panics nil_dereference
  end.

(** [Int.Div]: Euclidean division, obtained from the truncated quotient
    and remainder as the library does; a zero divisor panics. *)
Definition Div (x y : Z) : go_result Z :=
  if decide (y = 0) then Panics "division by zero"
  else
    let q := Z.quot x y in
    let r := Z.rem x y in
    Returns (if decide (r < 0)
             then (if decide (y < 0) then q + 1 else q - 1)
             else q).

End big.

(** ** encoding/binary, big endian *)

Module BigEndian.

(** [PutUint64(b, v)]: bounds check on [b[7]], then eight stores. *)
Definition PutUint64 (b : list byte) (v : Z) : go_result (list byte) :=
  if decide (length b ≤ 7)%nat then Panics "index out of range"
  else Returns (<[7%nat := to_byte v]>
               (<[6%nat := to_byte (v ≫ 8)]>
               (<[5%nat := to_byte (v ≫ 16)]>
               (<[4%nat := to_byte (v ≫ 24)]>
               (<[3%nat := to_byte (v ≫ 32)]>
               (<[2%nat := to_byte (v ≫ 40)]>
               (<[1%nat := to_byte (v ≫ 48)]>
               (<[0%nat := to_byte (v ≫ 56)]> b)))))))).

(** [Uint64(b)]: bounds check on [b[7]], then the eight bytes or-ed
    together. *)
Definition Uint64 (b : list byte) : go_result Z :=
  match b with
  | b0 :: b1 :: b2 :: b3 :: b4 :: b5 :: b6 :: b7 :: _ =>
      Returns (Z.lor (byte_val b7)
              (Z.lor (byte_val b6 ≪ 8)
              (Z.lor (byte_val b5 ≪ 16)
              (Z.lor (byte_val b4 ≪ 24)
              (Z.lor (byte_val b3 ≪ 32)
              (Z.lor (byte_val b2 ≪ 40)
              (Z.lor (byte_val b1 ≪ 48)
                     (byte_val b0 ≪ 56))))))))
  | _ => Panics "index out of range"
  end.

End BigEndian.

(** ** Slices and arrays *)

(** [make([]byte, n)]: [n] zero bytes. *)
Definition make_bytes (n : nat) : list byte := replicate n x00.

(** [s[lo:hi]]; out-of-range bounds panic. *)
Definition slice {A} (s : list A) (lo hi : nat) : go_result (list A) :=
  if decide (lo ≤ hi ∧ hi ≤ length s)%nat
  then Returns (take (hi - lo) (drop lo s))
  else Panics "slice bounds out of range".

(** [a[i] = x]; an index past the end panics. *)
Definition store {A} (a : list A) (i : nat) (x : A) : go_result (list A) :=
  if decide (i < length a)%nat then Returns (<[i := x]> a)
  else Panics "index out of range".

(** [for i, x := range src { dst[i] = conv(x) }], started at index [i]. *)
Fixpoint copy_range {A B} (conv : A → B) (i : nat) (src : list A) (dst : list B)
  : go_result (list B) :=
  match src with
  | [] => Returns dst
  | x :: rest =>
      dst' ← store dst i (conv x);
      copy_range conv (S i) rest dst'
  end.

(** [strings.ToLower] on ASCII text (the only text [Init] applies it to is
    the hexadecimal rendering of an address). *)
Definition lower_ascii (c : ascii) : ascii :=
  let n := N_of_ascii c in
  if decide (65 ≤ n ∧ n ≤ 90)%N then ascii_of_N (n + 32) else c.

Fixpoint ToLower (s : string) : string :=
  match s with
  | EmptyString => EmptyString
  | String c rest => String (lower_ascii c) (ToLower rest)
  end.

(** Equality of two ASCII strings up to letter case. *)
Definition equal_fold (s t : string) : Prop := ToLower s = ToLower t.

(** The value of a byte string read as a big-endian unsigned integer: the
    reading the payload format gives to the eight fee bytes. *)
Definition be_value (l : list byte) : Z :=
  fold_left (λ acc b, acc * 256 + byte_val b) l 0.

(** ** encoding/hex, hexutil and string slicing *)

(** [hextable], the digits [hex.Encode] indexes. *)
Definition hextable : list ascii :=
  list_ascii_of_string "0123456789abcdef".

Definition hex_digit (n : Z) : ascii := nth (Z.to_nat n) hextable "0"%char.

(** [hex.EncodeToString]: per byte [v], [hextable[v>>4]] then
    [hextable[v&0x0f]]. *)
Fixpoint EncodeToString (b : list byte) : string :=
  match b with
  | [] => EmptyString
  | v :: rest =>
      String (hex_digit (byte_val v ≫ 4))
        (String (hex_digit (Z.land (byte_val v) 15)) (EncodeToString rest))
  end.

(** [hexutil.Encode]: the hex digits behind the prefix [0x]. This is what
    [Hex] returns for a [common.Hash], given by its bytes. *)
Definition hexutil_Encode (b : list byte) : string :=
  "0x" +:+ EncodeToString b.

Fixpoint string_drop (n : nat) (s : string) : string :=
  match n, s with
  | O, _ => s
  | S n', String _ rest => string_drop n' rest
  | S _, EmptyString => EmptyString
  end.

(** [s[lo:]] on a string; a bound past the end panics. *)
Definition string_from (s : string) (lo : nat) : go_result string :=
  if decide (lo ≤ String.length s)%nat then Returns (string_drop lo s)
  else Panics "slice bounds out of range".

(** ** The package *)

Module drivechain.

Definition THIS_SIDECHAIN : Z := 6.

Definition TREASURY_PRIVATE_KEY : string :=
  "deadbeefdeadbeefdeadbeefdeadbeefdeadbeefdeadbeefdeadbeefdeadbeef".
Definition TREASURY_ACCOUNT : string :=
  "0xc96aaa54e2d44c299564da76e1cd3184a2386b8d".

(** There are 10,000,000,000 Wei in one Satoshi. *)
Definition Satoshi : Z := big.NewInt 10000000000.

Definition FeeLength : nat := 8.
Definition MainchainAddressLength : nat := 20.

(** [uint64(x)] of a C unsigned 64-bit field. *)
Definition uint64_of (x : Z) : Z := x mod 2 ^ 64.

(** [byte(u)] for [u : C.uchar] and [C.uchar(b)] for [b : byte]. *)
Definition byte_of_uchar (u : byte) : byte := to_byte (byte_val u).
Definition uchar_of_byte (b : byte) : byte := to_byte (byte_val b).

(** *** Engine records, as the C bindings hand them over *)

Record CDeposit := { cd_address : string; cd_amount : Z }.
Record CDeposits := { cds_valid : bool; cds_items : list CDeposit }.
Record CWithdrawal := {
  cw_id : string;
  cw_address : list byte;
  cw_amount : Z;
  cw_fee : Z
}.

(** *** Go structs *)

Record RawDeposit := { address : string; amount : Z }.

Record Withdrawal := {
  Withdrawal_Address : list byte;
  Withdrawal_Amount : option Z;
  Withdrawal_Fee : option Z
}.

(** The zero value [Withdrawal{}]. *)
Definition Withdrawal_zero : Withdrawal :=
  {| Withdrawal_Address := replicate MainchainAddressLength x00;
     Withdrawal_Amount := None;
     Withdrawal_Fee := None |}.

(** [getDepositOutputs], given what [C.get_deposit_outputs()] answered. *)
Definition getDepositOutputs (ptrDeposits : CDeposits)
  : list RawDeposit * option error :=
  if negb (cds_valid ptrDeposits)
  then ([], Some "can't get deposit outputs")
  else
    (fold_left
       (λ deposits cDeposit,
          deposits ++ [{| address := cd_address cDeposit;
                          amount := uint64_of (cd_amount cDeposit) |}])
       (cds_items ptrDeposits) [],
     None).

(** *** The withdrawal payload *)

(** [GetWithdrawalData(fee)], given the address that
    [C.get_new_mainchain_address()] answered. *)
Definition GetWithdrawalData (fee : Z) (cAddress : list byte)
  : go_result (list byte) :=
  feeBytes ← BigEndian.PutUint64 (make_bytes FeeLength) fee;
  addressBytes ← copy_range byte_of_uchar 0 cAddress
                   (make_bytes MainchainAddressLength);
  Returns (feeBytes ++ addressBytes).

Definition DecodeWithdrawal (value : option Z) (data : list byte)
  : go_result (Withdrawal * option error) :=
  if decide (length data ≠ (FeeLength + MainchainAddressLength)%nat)
  then Returns (Withdrawal_zero, Some "wrong withdrawal data length")
  else
    feeBytes ← slice data 0 FeeLength;
    if decide (length feeBytes ≠ FeeLength)
    then Panics "off by one error"
    else
      addressBytes ← slice data FeeLength (FeeLength + MainchainAddressLength);
      if decide (length addressBytes ≠ MainchainAddressLength)
      then Panics "off by one error"
      else
        address ← copy_range uchar_of_byte 0 addressBytes
                    (replicate MainchainAddressLength x00);
        (* Convert Wei to Satoshi. *)
        x ← big.deref value;
        amount ← big.Div x Satoshi;
        u ← BigEndian.Uint64 feeBytes;
        let fee := big.NewInt (int64_of u) in
        Returns ({| Withdrawal_Address := address;
                    Withdrawal_Amount := Some amount;
                    Withdrawal_Fee := Some fee |}, None).

(** *** Functions that go through go-ethereum's [common] package *)

Section common.

(** [common.Address] and [common.Hash], with [common.HexToAddress] and
    [common.HexToHash]. *)
Context {Address Hash : Type} `{Countable Hash}.
Variable HexToAddress : string → Address.
Variable HexToHash : string → Hash.

Record Deposit := {
  Deposit_Address : Address;
  Deposit_Amount : option Z
}.

Record Refund := {
  Refund_Id : Hash;
  Refund_Amount : option Z
}.

Definition GetDepositOutputs (ptrDeposits : CDeposits)
  : list Deposit * option error :=
  let '(rawDeposits, err) := getDepositOutputs ptrDeposits in
  match err with
  | Some _ => ([], Some "failed to get deposits")
  | None =>
      (fold_left
         (λ deposits rawDeposit,
            deposits ++
              [{| Deposit_Address := HexToAddress (address rawDeposit);
                  Deposit_Amount :=
                    Some (big.NewInt (int64_of (amount rawDeposit))) |}])
         rawDeposits [],
       None)
  end.

(** [GetUnspentWithdrawals], given what [C.get_unspent_withdrawals()]
    answered. *)
Definition GetUnspentWithdrawals (cWithdrawals : list CWithdrawal)
  : gmap Hash Withdrawal :=
  fold_left
    (λ withdrawals cWithdrawal,
       let amount :=
         big.Mul (big.NewInt (int64_of (cw_amount cWithdrawal))) Satoshi in
       let fee :=
         big.Mul (big.NewInt (int64_of (cw_fee cWithdrawal))) Satoshi in
       let withdrawal :=
         {| Withdrawal_Address := cw_address cWithdrawal;
            Withdrawal_Amount := Some amount;
            Withdrawal_Fee := Some fee |} in
       let id := HexToHash (cw_id cWithdrawal) in
       <[id := withdrawal]> withdrawals)
    cWithdrawals ∅.

(** *** The engine behind the C bindings

    The engine is reached through [bindings.h]; its state and the effect of
    [connect_block] on it are not part of the Go file. *)

Record CRefund := { cr_id : string; cr_amount : Z }.

#[global] Instance CDeposit_eq_dec : EqDecision CDeposit.
Proof. solve_decision. Defined.

(** Modelled from the spec: the persisted state of the engine, which is
    missing from the Go file. It holds the deposit outputs not yet consumed,
    the withdrawals not yet spent, the ids of spent withdrawals and the
    balance of the treasury. *)
Record Engine := {
  deposit_outputs : list CDeposit;
  unspent_withdrawals : list CWithdrawal;
  spent_withdrawals : list string;
  treasury_balance : Z
}.

(** Modelled from the spec: [C.get_deposit_outputs()], which is missing; it
    reports the deposit outputs that are pending. *)
Definition get_deposit_outputs (eng : Engine) : CDeposits :=
  {| cds_valid := true; cds_items := deposit_outputs eng |}.

(** Modelled from the spec: [C.get_unspent_withdrawals()], which is
    missing. *)
Definition get_unspent_withdrawals (eng : Engine) : list CWithdrawal :=
  unspent_withdrawals eng.

Definition total_deposited (ds : list CDeposit) : Z :=
  foldr (λ d acc, cd_amount d + acc) 0 ds.

(** Modelled from the spec: the validation that [C.connect_block] performs,
    which is missing: sufficient treasury balance, no withdrawal or refund
    of an id that is already spent, every deposit output still pending. *)
Definition connect_valid (eng : Engine) (ds : list CDeposit)
    (ws : list CWithdrawal) (rs : list CRefund) : bool :=
  bool_decide (total_deposited ds ≤ treasury_balance eng)
  && forallb (λ w, bool_decide (cw_id w ∉ spent_withdrawals eng)) ws
  && forallb (λ r, bool_decide (cr_id r ∉ spent_withdrawals eng)) rs
  && forallb (λ d, bool_decide (d ∈ deposit_outputs eng)) ds.

(** Modelled from the spec: the state after a block is applied, which is
    missing: the deposit outputs of the block are consumed, its withdrawals
    become unspent withdrawals, refunded withdrawals leave that set. *)
Definition connect_apply (eng : Engine) (ds : list CDeposit)
    (ws : list CWithdrawal) (rs : list CRefund) : Engine :=
  {| deposit_outputs :=
       filter (λ d, d ∉ ds) (deposit_outputs eng);
     unspent_withdrawals :=
       filter (λ w, cw_id w ∉ (cr_id <$> rs)) (unspent_withdrawals eng ++ ws);
     spent_withdrawals := spent_withdrawals eng ++ (cr_id <$> rs);
     treasury_balance := treasury_balance eng - total_deposited ds |}.

(** Modelled from the spec: [C.connect_block], which is missing. The block
    is accepted or rejected as a whole; with [just_checking] the answer is
    computed and the state is left as it was. *)
Definition connect_block (eng : Engine) (ds : list CDeposit)
    (ws : list CWithdrawal) (rs : list CRefund) (just_checking : bool)
  : bool * Engine :=
  let accepted := connect_valid eng ds ws rs in
  if accepted && negb just_checking
  then (accepted, connect_apply eng ds ws rs)
  else (accepted, eng).

(** The marshalling helpers [newDeposits], [newWithdrawals] and
    [newRefunds] of the bindings. *)
Variable newDeposits : list Deposit → list CDeposit.
Variable newWithdrawals : gmap Hash Withdrawal → list CWithdrawal.
Variable newRefunds : list Refund → list CRefund.

Definition ConnectBlock (eng : Engine) (deposits : list Deposit)
    (withdrawals : gmap Hash Withdrawal) (refunds : list Refund)
    (just_checking : bool) : bool * Engine :=
  let cDeposits := newDeposits deposits in
  let cWithdrawals := newWithdrawals withdrawals in
  let cRefunds := newRefunds refunds in
  connect_block eng cDeposits cWithdrawals cRefunds just_checking.

End common.

(** *** Startup *)

Section startup.

(** [crypto.HexToECDSA], and [crypto.PubkeyToAddress] of the public key
    followed by [Hex]. *)
Context {PrivateKey : Type}.
Variable HexToECDSA : string → PrivateKey + error.
Variable AddressHex : PrivateKey → string.

(** The HTTP client: [http.NewRequestWithContext] on a URL, and
    [http.DefaultClient.Do] on a URL with basic-auth credentials. *)
Record Response := {
  StatusCode : Z;
  Status : string;
  Body : string + error
}.
Variable NewRequest : string → option error.
Variable Do : string → string → string → Response + error.

Definition StatusOK : Z := 200.

(** What [Init] does to the outside world, in order. *)
Inductive event :=
| RpcRequest (url rpcUser rpcPassword : string)
| InitBmmEngine (dbPath host rpcUser rpcPassword : string) (port : Z).

Definition Init (dbPath host : string) (port : Z) (rpcUser rpcPassword : string)
  : list event * go_result (option error) :=
  match HexToECDSA TREASURY_PRIVATE_KEY with
  | inr err => ([], Panics ("can't get treasury private key: " +:+ err))
  | inl privKey =>
      let actualTreasuryAccount := ToLower (AddressHex privKey) in
      if decide (TREASURY_ACCOUNT ≠ actualTreasuryAccount)
      then ([], Panics ("treasury account: " +:+ TREASURY_ACCOUNT +:+
                        " != actual treasury account: " +:+
                        actualTreasuryAccount))
      else
        (* Verify we're able to use the RPC credentials *)
        let url := "http://" +:+ host +:+ ":" +:+ pretty port in
        match NewRequest url with
        | Some err => ([], Returns (Some err))
        | None =>
            let sent := [RpcRequest url rpcUser rpcPassword] in
            match Do url rpcUser rpcPassword with
            | inr err =>
                (sent,
                 Returns (Some
                   ("unable to establish RPC connection with mainchain: "
                    +:+ err)))
            | inl res =>
                if decide (StatusCode res ≠ StatusOK)
                then
                  let body := match Body res with
                              | inl body => body
                              | inr _ => "<empty body>"
                              end in
                  (sent,
                   Returns (Some
                     ("unable to establish RPC connection with mainchain: "
                      +:+ Status res +:+ ": " +:+ body)))
                else
                  (sent ++ [InitBmmEngine dbPath host rpcUser rpcPassword port],
                   Returns None)
            end
        end
  end.

End startup.

(** *** Merged mining and outpoints *)

Section bmm.

(** The engine calls [C.verify_bmm] and [C.is_outpoint_spent], and the
    wrapper [attemptBmm] of the bindings, which reports the call it makes. *)
Context {Call : Type}.
Variable verify_bmm : string → string → bool.
Variable is_outpoint_spent : string → bool.
Variable attemptBmm : string → string → Z → Call.

Definition Hash_Hex (h : list byte) : string := hexutil_Encode h.

(** [AttemptBmm], given [header.Hash()] and [header.PrevMainBlockHash]. *)
Definition AttemptBmm (headerHash prevMainBlockHash : list byte) (amount : Z)
  : go_result Call :=
  criticalHash ← string_from (Hash_Hex headerHash) 2;
  prev ← string_from (Hash_Hex prevMainBlockHash) 2;
  Returns (attemptBmm criticalHash prev amount).

Definition verifyBmm (prevMainBlockHash criticalHash : string) : bool :=
  verify_bmm prevMainBlockHash criticalHash.

Definition VerifyBmm (prevMainBlockHash criticalHash : list byte)
  : go_result bool :=
  prev ← string_from (Hash_Hex prevMainBlockHash) 2;
  crit ← string_from (Hash_Hex criticalHash) 2;
  Returns (verifyBmm prev crit).

Definition IsWithdrawalSpent (id : list byte) : bool :=
  is_outpoint_spent (Hash_Hex id).

End bmm.

End drivechain.

(** * Derived forms and sample inputs *)

Import drivechain.

Definition payload_length : nat := (FeeLength + MainchainAddressLength)%nat.

(** What [DecodeWithdrawal] returns on a payload of the right length. *)
Definition decoded (value : Z) (data : list byte) : Withdrawal :=
  {| Withdrawal_Address := drop FeeLength data;
     Withdrawal_Amount := Some (value / Satoshi);
     Withdrawal_Fee := Some (int64_of (be_value (take FeeLength data))) |}.

(** The eight bytes that [PutUint64] leaves in a fresh fee buffer. *)
Definition fee_bytes (fee : Z) : list byte :=
  [to_byte (fee ≫ 56); to_byte (fee ≫ 48); to_byte (fee ≫ 40);
   to_byte (fee ≫ 32); to_byte (fee ≫ 24); to_byte (fee ≫ 16);
   to_byte (fee ≫ 8); to_byte fee].

(** The deposit built from one engine record. *)
Definition deposit_of {Address} (HexToAddress : string → Address)
    (c : CDeposit) : Deposit :=
  {| Deposit_Address := HexToAddress (cd_address c);
     Deposit_Amount := Some (int64_of (uint64_of (cd_amount c))) |}.

(** The withdrawal built from one engine record. *)
Definition withdrawal_of (c : CWithdrawal) : Withdrawal :=
  {| Withdrawal_Address := cw_address c;
     Withdrawal_Amount := Some (int64_of (cw_amount c) * Satoshi);
     Withdrawal_Fee := Some (int64_of (cw_fee c) * Satoshi) |}.

(** An engine answer with one deposit of one satoshi. *)
Definition one_satoshi_deposit : CDeposits :=
  {| cds_valid := true;
     cds_items := [{| cd_address := "0x01"; cd_amount := 1 |}] |}.

(** An engine answer with one deposit of the largest 64-bit amount. *)
Definition max_amount_deposit : CDeposits :=
  {| cds_valid := true;
     cds_items := [{| cd_address := "0x02"; cd_amount := 2 ^ 64 - 1 |}] |}.

(** Engine withdrawal records, two of them under the same id. *)
Definition withdrawal_aa_5 : CWithdrawal :=
  {| cw_id := "aa"; cw_address := replicate 20 x01;
     cw_amount := 5; cw_fee := 1 |}.
Definition withdrawal_aa_9 : CWithdrawal :=
  {| cw_id := "aa"; cw_address := replicate 20 x02;
     cw_amount := 9; cw_fee := 3 |}.
Definition withdrawal_bb_7 : CWithdrawal :=
  {| cw_id := "bb"; cw_address := replicate 20 x03;
     cw_amount := 7; cw_fee := 2 |}.

(** An engine withdrawal record whose amount has the top bit set. *)
Definition withdrawal_high_amount : CWithdrawal :=
  {| cw_id := "cc"; cw_address := replicate 20 x04;
     cw_amount := 2 ^ 63; cw_fee := 0 |}.

(** A payload whose fee bytes are [80 00 00 00 00 00 00 00], the big-endian
    form of [2^63], followed by twenty zero bytes. *)
Definition high_fee_payload : list byte :=
  [x80; x00; x00; x00; x00; x00; x00; x00] ++ replicate 20 x00.

(** The derived address in mixed case, and a server that answers 200. *)
Definition mixed_case_account : string :=
  "0xC96AAA54e2d44C299564dA76e1cD3184A2386B8D".
Definition ok_response : Response :=
  {| StatusCode := 200; Status := "200 OK"; Body := inl "{}" |}.

(** * Properties *)

(** ** Bytes, casts and big integers *)

Lemma byte_val_range (b : byte) : 0 ≤ byte_val b < 256.
Proof.
  unfold byte_val. pose proof (Byte.to_N_bounded b). lia.
Qed.

Lemma to_byte_val (b : byte) : to_byte (byte_val b) = b.
Proof.
  unfold to_byte. pose proof (byte_val_range b) as Hb.
  rewrite Z.mod_small by lia. unfold byte_val.
  rewrite N2Z.id. now rewrite Byte.of_to_N.
Qed.

Lemma byte_val_to_byte (x : Z) : byte_val (to_byte x) = x mod 256.
Proof.
  unfold to_byte, byte_val.
  pose proof (Z.mod_pos_bound x 256 ltac:(lia)) as Hx.
  destruct (Byte.of_N (Z.to_N (x mod 256))) as [b|] eqn:Hb.
  - apply Byte.to_of_N in Hb. rewrite Hb. lia.
  - apply Byte.of_N_None_iff in Hb. lia.
Qed.

Lemma byte_of_uchar_id (u : byte) : byte_of_uchar u = u.
Proof. apply to_byte_val. Qed.

Lemma uchar_of_byte_id (b : byte) : uchar_of_byte b = b.
Proof. apply to_byte_val. Qed.

Lemma int64_of_low (x : Z) : 0 ≤ x < 2 ^ 63 → int64_of x = x.
Proof.
  intros Hx. unfold int64_of. rewrite Z.mod_small; lia.
Qed.

Lemma int64_of_high (x : Z) :
  2 ^ 63 ≤ x < 2 ^ 64 → int64_of x = x - 2 ^ 64.
Proof.
  intros Hx. unfold int64_of.
  replace (x + 2 ^ 63) with (x - 2 ^ 63 + 1 * 2 ^ 64) by lia.
  rewrite Z.mod_add by lia. rewrite Z.mod_small; lia.
Qed.

Lemma uint64_of_id (x : Z) : is_uint64 x → uint64_of x = x.
Proof.
  unfold is_uint64, uint64_max, uint64_of. intros Hx.
  apply Z.mod_small. lia.
Qed.

(** For a positive divisor [Int.Div] is the floor quotient. *)
Lemma Div_pos (x y : Z) : 0 < y → big.Div x y = Returns (x / y).
Proof.
  intros Hy. unfold big.Div.
  destruct (decide (y = 0)) as [->|_]; [lia|]. f_equal.
  pose proof (Z.quot_rem' x y) as Hqr.
  pose proof (Z.rem_bound_abs x y ltac:(lia)) as Hr.
  destruct (decide (Z.rem x y < 0)) as [Hneg|Hpos].
  - destruct (decide (y < 0)); [lia|].
    apply Z.div_unique with (r := Z.rem x y + y); lia.
  - apply Z.div_unique with (r := Z.rem x y); lia.
Qed.

Lemma Satoshi_pos : 0 < Satoshi.
Proof. reflexivity. Qed.

Lemma Div_Satoshi (value : Z) :
  big.Div value Satoshi = Returns (value / Satoshi).
Proof. apply Div_pos, Satoshi_pos. Qed.

Lemma bind_Returns {A B} (a : A) (k : A → go_result B) :
  Returns a ≫= k = k a.
Proof. reflexivity. Qed.

(** ** Big-endian encoding *)

Lemma testbit_byte_at (v k n : Z) :
  0 ≤ k → 0 ≤ n →
  Z.testbit (((v ≫ k) mod 256) ≪ k) n
  = bool_decide (k ≤ n < k + 8) && Z.testbit v n.
Proof.
  intros Hk Hn. rewrite Z.shiftl_spec by lia.
  destruct (decide (k ≤ n)) as [Hle|Hlt].
  - change 256 with (2 ^ 8). rewrite Z.testbit_mod_pow2 by lia.
    rewrite Z.shiftr_spec by lia.
    replace (n - k + k) with n by lia.
    f_equal. case_bool_decide; lia.
  - rewrite Z.testbit_neg_r by lia.
    rewrite bool_decide_eq_false_2 by lia. done.
Qed.

Lemma testbit_byte_0 (v n : Z) :
  0 ≤ n →
  Z.testbit (v mod 256) n = bool_decide (0 ≤ n < 8) && Z.testbit v n.
Proof.
  intros Hn. change 256 with (2 ^ 8). rewrite Z.testbit_mod_pow2 by lia.
  f_equal. case_bool_decide; lia.
Qed.

(** The eight bytes written by [PutUint64] read back as the low 64 bits of
    the value. *)
Lemma Uint64_PutUint64 (v : Z) :
  BigEndian.PutUint64 (make_bytes FeeLength) v
  ≫= BigEndian.Uint64 = Returns (v mod 2 ^ 64).
Proof.
  unfold BigEndian.PutUint64, make_bytes, FeeLength.
  rewrite decide_False by (simpl; lia).
  cbn -[Z.lor Z.shiftl Z.shiftr to_byte byte_val Z.modulo Z.pow].
  f_equal. rewrite !byte_val_to_byte.
  apply Z.bits_inj'. intros n Hn.
  rewrite !Z.lor_spec, !testbit_byte_at, testbit_byte_0 by lia.
  rewrite Z.testbit_mod_pow2 by lia.
  destruct (Z.testbit v n); rewrite ?andb_true_r, ?andb_false_r; [|done].
  repeat case_bool_decide; simpl; lia.
Qed.

Ltac solve_be := first [lia | Z.to_euclidean_division_equations; lia].

Lemma lor_add (lo hi k : Z) :
  0 ≤ k → 0 ≤ lo < 2 ^ k → hi mod 2 ^ k = 0 → Z.lor lo hi = lo + hi.
Proof.
  intros Hk Hlo Hhi. symmetry. apply Z.add_nocarry_lor.
  apply Z.bits_inj'. intros n Hn. rewrite Z.land_spec, Z.bits_0.
  destruct (decide (n < k)).
  - rewrite <- (Z.mod_pow2_bits_low hi k n) by lia. rewrite Hhi, Z.bits_0.
    apply andb_false_r.
  - rewrite <- (Z.mod_small lo (2 ^ k)) by lia.
    rewrite Z.mod_pow2_bits_high by lia. done.
Qed.

(** [Uint64] reads the first eight bytes as a big-endian number. *)
Lemma Uint64_be_value (b : list byte) :
  (8 ≤ length b)%nat → BigEndian.Uint64 b = Returns (be_value (take 8 b)).
Proof.
  intros Hlen.
  do 8 (destruct b as [|? b]; [simpl in Hlen; lia|]).
  unfold BigEndian.Uint64, be_value. simpl take. simpl fold_left.
  f_equal.
  repeat match goal with
         | |- context [byte_val ?x] =>
             let Hx := fresh "Hx" in
             pose proof (byte_val_range x) as Hx;
             generalize dependent (byte_val x); intros
         end.
  rewrite !Z.shiftl_mul_pow2 by lia.
  rewrite (lor_add (_ * 2 ^ 48) _ 56) by solve_be.
  rewrite (lor_add (_ * 2 ^ 40) _ 48) by solve_be.
  rewrite (lor_add (_ * 2 ^ 32) _ 40) by solve_be.
  rewrite (lor_add (_ * 2 ^ 24) _ 32) by solve_be.
  rewrite (lor_add (_ * 2 ^ 16) _ 24) by solve_be.
  rewrite (lor_add (_ * 2 ^ 8) _ 16) by solve_be.
  rewrite (lor_add _ _ 8) by solve_be.
  lia.
Qed.

Lemma be_value_snoc (l : list byte) (b : byte) :
  be_value (l ++ [b]) = be_value l * 256 + byte_val b.
Proof. unfold be_value. now rewrite fold_left_app. Qed.

Lemma be_value_range (l : list byte) :
  0 ≤ be_value l < 256 ^ Z.of_nat (length l).
Proof.
  induction l as [|b l IH] using rev_ind.
  - unfold be_value. simpl. lia.
  - rewrite be_value_snoc, length_app. simpl length.
    replace (Z.of_nat (length l + 1)) with (Z.succ (Z.of_nat (length l)))
      by lia.
    rewrite Z.pow_succ_r by lia.
    pose proof (byte_val_range b). nia.
Qed.

Lemma be_value_uint64 (l : list byte) :
  length l = 8%nat → is_uint64 (be_value l).
Proof.
  intros Hlen. pose proof (be_value_range l) as Hr. rewrite Hlen in Hr.
  unfold is_uint64, uint64_max. change (256 ^ Z.of_nat 8) with (2 ^ 64) in Hr.
  lia.
Qed.

(** ** Slices and the copy loop *)

Lemma slice_ok {A} (s : list A) (lo hi : nat) :
  (lo ≤ hi ≤ length s)%nat →
  slice s lo hi = Returns (take (hi - lo) (drop lo s)).
Proof.
  intros Hb. unfold slice. rewrite decide_True by lia. done.
Qed.

Lemma copy_range_ok {A B} (conv : A → B) (src : list A) :
  ∀ (i : nat) (dst : list B),
    (i + length src ≤ length dst)%nat →
    copy_range conv i src dst
    = Returns (take i dst ++ (conv <$> src) ++ drop (i + length src) dst).
Proof.
  induction src as [|x rest IH]; intros i dst Hlen; simpl in *.
  - rewrite Nat.add_0_r, take_drop. done.
  - unfold store. rewrite decide_True by lia. simpl.
    rewrite IH by (rewrite length_insert; lia).
    f_equal.
    destruct (lookup_lt_is_Some_2 dst i ltac:(lia)) as [d Hd].
    rewrite take_insert_lt by lia.
    rewrite (take_S_r _ _ _ Hd).
    rewrite insert_app_r_alt by (rewrite length_take; lia).
    rewrite length_take, Nat.min_l, Nat.sub_diag by lia. simpl.
    rewrite drop_insert_lt by lia.
    rewrite <- app_assoc. simpl.
    replace (S (i + length rest)) with (i + S (length rest))%nat by lia.
    done.
Qed.

(** Copying a whole array over an array of the same length. *)
Lemma copy_range_whole {A B} (conv : A → B) (src : list A) (dst : list B) :
  length src = length dst →
  copy_range conv 0 src dst = Returns (conv <$> src).
Proof.
  intros Hlen. rewrite copy_range_ok by (simpl; lia). simpl.
  rewrite drop_ge, app_nil_r by lia. done.
Qed.

(** ** The withdrawal payload *)

Lemma DecodeWithdrawal_bad_length (value : option Z) (data : list byte) :
  length data ≠ payload_length →
  DecodeWithdrawal value data
  = Returns (Withdrawal_zero, Some "wrong withdrawal data length").
Proof.
  intros Hlen. unfold DecodeWithdrawal. now rewrite decide_True.
Qed.

Lemma DecodeWithdrawal_good_length (value : Z) (data : list byte) :
  length data = payload_length →
  DecodeWithdrawal (Some value) data = Returns (decoded value data, None).
Proof.
  unfold payload_length, DecodeWithdrawal, decoded.
  unfold FeeLength, MainchainAddressLength. intros Hlen.
  rewrite decide_False by lia.
  rewrite (slice_ok data 0 8), bind_Returns by lia.
  rewrite decide_False by (rewrite length_take, length_drop; lia).
  rewrite (slice_ok data 8 (8 + 20)), bind_Returns by lia.
  rewrite decide_False by (rewrite length_take, length_drop; lia).
  rewrite copy_range_whole, bind_Returns
    by (rewrite length_take, length_drop, length_replicate; lia).
  change (big.deref (Some value)) with (Returns value).
  rewrite bind_Returns, Div_Satoshi, bind_Returns.
  rewrite Uint64_be_value, bind_Returns
    by (rewrite length_take, length_drop; lia).
  unfold big.NewInt.
  change (8 - 0)%nat with 8%nat. change (8 + 20 - 8)%nat with 20%nat.
  rewrite drop_0, take_take, Nat.min_id.
  rewrite (take_ge (drop 8 data)) by (rewrite length_drop; lia).
  rewrite (list_fmap_ext uchar_of_byte id (drop 8 data))
    by (intros; apply uchar_of_byte_id).
  rewrite list_fmap_id. done.
Qed.

(** With a nil value the payload is checked and copied, and the division
    then stops at the nil pointer. *)
Lemma DecodeWithdrawal_nil (data : list byte) :
  length data = payload_length →
  DecodeWithdrawal None data = Panics big.nil_dereference.
Proof.
  unfold payload_length, DecodeWithdrawal.
  unfold FeeLength, MainchainAddressLength. intros Hlen.
  rewrite decide_False by lia.
  rewrite (slice_ok data 0 8), bind_Returns by lia.
  rewrite decide_False by (rewrite length_take, length_drop; lia).
  rewrite (slice_ok data 8 (8 + 20)), bind_Returns by lia.
  rewrite decide_False by (rewrite length_take, length_drop; lia).
  rewrite copy_range_whole, bind_Returns
    by (rewrite length_take, length_drop, length_replicate; lia).
  done.
Qed.

(** The decoded fee is the big-endian value of the fee bytes when that value
    is below [2^63], and that value minus [2^64] otherwise. *)
Lemma DecodeWithdrawal_fee (value : Z) (data : list byte) :
  length data = payload_length →
  let u := be_value (take FeeLength data) in
  is_uint64 u
  ∧ ∃ w, DecodeWithdrawal (Some value) data = Returns (w, None)
         ∧ Withdrawal_Fee w
           = Some (if decide (u < 2 ^ 63) then u else u - 2 ^ 64).
Proof.
  intros Hlen u.
  assert (is_uint64 u) as Hu.
  { apply be_value_uint64. rewrite length_take.
    unfold payload_length, FeeLength in *. lia. }
  split; [done|]. exists (decoded value data).
  split; [now apply DecodeWithdrawal_good_length|].
  unfold decoded. simpl. fold u. f_equal.
  unfold is_uint64, uint64_max in Hu.
  case_decide; [apply int64_of_low | apply int64_of_high]; lia.
Qed.

Lemma PutUint64_fresh (fee : Z) :
  BigEndian.PutUint64 (make_bytes FeeLength) fee = Returns (fee_bytes fee).
Proof.
  unfold BigEndian.PutUint64, make_bytes, FeeLength.
  rewrite decide_False by (simpl; lia). done.
Qed.

Lemma be_value_fee_bytes (fee : Z) : be_value (fee_bytes fee) = fee mod 2 ^ 64.
Proof.
  pose proof (Uint64_PutUint64 fee) as Hrt.
  rewrite PutUint64_fresh, bind_Returns in Hrt.
  rewrite Uint64_be_value in Hrt by (simpl; lia).
  simpl take in Hrt. now injection Hrt.
Qed.

Lemma GetWithdrawalData_ok (fee : Z) (cAddress : list byte) :
  length cAddress = MainchainAddressLength →
  GetWithdrawalData fee cAddress = Returns (fee_bytes fee ++ cAddress).
Proof.
  intros Hlen. unfold GetWithdrawalData.
  rewrite PutUint64_fresh, bind_Returns.
  rewrite copy_range_whole, bind_Returns
    by (unfold make_bytes; now rewrite length_replicate).
  rewrite (list_fmap_ext byte_of_uchar id cAddress)
    by (intros; apply byte_of_uchar_id).
  rewrite list_fmap_id. done.
Qed.

(** Encoding and then decoding: the address comes back as it was, the fee
    comes back through the conversion to [int64]. *)
Lemma DecodeWithdrawal_GetWithdrawalData
    (value fee : Z) (cAddress : list byte) :
  is_uint64 fee →
  length cAddress = MainchainAddressLength →
  GetWithdrawalData fee cAddress ≫= DecodeWithdrawal (Some value)
  = Returns ({| Withdrawal_Address := cAddress;
                Withdrawal_Amount := Some (value / Satoshi);
                Withdrawal_Fee := Some (int64_of fee) |}, None).
Proof.
  intros Hfee Hlen. rewrite GetWithdrawalData_ok, bind_Returns by done.
  rewrite DecodeWithdrawal_good_length
    by (unfold payload_length; rewrite length_app, Hlen; done).
  unfold decoded. repeat f_equal.
  change FeeLength with (length (fee_bytes fee)).
  rewrite take_app_length, be_value_fee_bytes.
  unfold is_uint64, uint64_max in Hfee. rewrite Z.mod_small by lia. done.
Qed.

(** The fee survives the round trip when it is below [2^63]. *)
Lemma roundtrip_fee_low (value fee : Z) (cAddress : list byte) :
  0 ≤ fee < 2 ^ 63 →
  length cAddress = MainchainAddressLength →
  GetWithdrawalData fee cAddress ≫= DecodeWithdrawal (Some value)
  = Returns ({| Withdrawal_Address := cAddress;
                Withdrawal_Amount := Some (value / Satoshi);
                Withdrawal_Fee := Some fee |}, None).
Proof.
  intros Hfee Hlen.
  rewrite DecodeWithdrawal_GetWithdrawalData
    by (unfold is_uint64, uint64_max; (done || lia)).
  now rewrite int64_of_low.
Qed.

(** ** Deposits *)

Lemma fold_left_snoc {A B} (f : A → B) (l : list A) (acc : list B) :
  fold_left (λ out x, out ++ [f x]) l acc = acc ++ (f <$> l).
Proof.
  revert acc. induction l as [|x l IH]; intros acc; simpl.
  - now rewrite app_nil_r.
  - rewrite IH, <- app_assoc. done.
Qed.

Lemma getDepositOutputs_valid (ptrDeposits : CDeposits) :
  cds_valid ptrDeposits = true →
  getDepositOutputs ptrDeposits
  = ((λ c, {| address := cd_address c; amount := uint64_of (cd_amount c) |})
       <$> cds_items ptrDeposits, None).
Proof.
  intros Hvalid. unfold getDepositOutputs. rewrite Hvalid. simpl negb.
  cbv iota. now rewrite fold_left_snoc.
Qed.

Section deposits.

Context {Address : Type} (HexToAddress : string → Address).

Lemma GetDepositOutputs_valid (ptrDeposits : CDeposits) :
  cds_valid ptrDeposits = true →
  GetDepositOutputs HexToAddress ptrDeposits
  = (deposit_of HexToAddress <$> cds_items ptrDeposits, None).
Proof.
  intros Hvalid. unfold GetDepositOutputs.
  rewrite getDepositOutputs_valid by done.
  rewrite fold_left_snoc, <- list_fmap_compose. done.
Qed.

Lemma GetDepositOutputs_invalid (ptrDeposits : CDeposits) :
  cds_valid ptrDeposits = false →
  GetDepositOutputs HexToAddress ptrDeposits
  = ([], Some "failed to get deposits").
Proof.
  intros Hvalid. unfold GetDepositOutputs, getDepositOutputs.
  now rewrite Hvalid.
Qed.

(** C1, as amended. For every record of a valid engine answer whose amount
    [m] is below [2^63], [GetDepositOutputs] returns, at the same position,
    a [Deposit] whose [Amount] is [m] itself, in mainchain units and not
    scaled by [10^10], and whose [Address] is the parsed form of the
    record's address; no error is returned. *)
Theorem GetDepositOutputs_amount_unscaled
    (ptrDeposits : CDeposits) (i : nat) (c : CDeposit) :
  cds_valid ptrDeposits = true →
  cds_items ptrDeposits !! i = Some c →
  0 ≤ cd_amount c < 2 ^ 63 →
  (GetDepositOutputs HexToAddress ptrDeposits).1 !! i
  = Some {| Deposit_Address := HexToAddress (cd_address c);
            Deposit_Amount := Some (cd_amount c) |}
  ∧ (GetDepositOutputs HexToAddress ptrDeposits).2 = None.
Proof.
  intros Hvalid Hc Hm. rewrite GetDepositOutputs_valid by done. simpl.
  split; [|done].
  rewrite list_lookup_fmap, Hc. simpl. unfold deposit_of.
  rewrite uint64_of_id by (unfold is_uint64, uint64_max; lia).
  now rewrite int64_of_low.
Qed.

End deposits.

Lemma GetDepositOutputs_amount_unscaled_witness :
  (GetDepositOutputs (λ s, s) one_satoshi_deposit).1 !! 0%nat
  = Some {| Deposit_Address := "0x01"; Deposit_Amount := Some 1 |}
  ∧ (GetDepositOutputs (λ s, s) one_satoshi_deposit).2 = None.
Proof.
  apply (GetDepositOutputs_amount_unscaled (λ s, s) one_satoshi_deposit 0
           {| cd_address := "0x01"; cd_amount := 1 |}).
  - reflexivity.
  - reflexivity.
  - simpl. lia.
Defined.

(** C1, as stated, fails: a deposit of one satoshi is returned with
    [Amount] 1, not [1 * 10^10]. *)
Lemma GetDepositOutputs_not_scaled :
  GetDepositOutputs (λ s, s) one_satoshi_deposit
  ≠ ([{| Deposit_Address := "0x01";
         Deposit_Amount := Some (big.Mul 1 Satoshi) |}], None).
Proof. vm_compute. intros [=]. Qed.

(** ** Unspent withdrawals *)

Section withdrawals.

Context {Hash : Type} `{Countable Hash} (HexToHash : string → Hash).

Lemma GetUnspentWithdrawals_snoc (cs : list CWithdrawal) (c : CWithdrawal) :
  GetUnspentWithdrawals HexToHash (cs ++ [c])
  = <[HexToHash (cw_id c) := withdrawal_of c]>
      (GetUnspentWithdrawals HexToHash cs).
Proof.
  unfold GetUnspentWithdrawals. now rewrite fold_left_app.
Qed.

(** Every record's id is a key of the result, bound to the withdrawal of
    the last record with that key. *)
Lemma GetUnspentWithdrawals_lookup (cs : list CWithdrawal) (c : CWithdrawal) :
  c ∈ cs →
  ∃ c', c' ∈ cs
        ∧ HexToHash (cw_id c') = HexToHash (cw_id c)
        ∧ GetUnspentWithdrawals HexToHash cs !! HexToHash (cw_id c)
          = Some (withdrawal_of c').
Proof.
  induction cs as [|c0 cs IH] using rev_ind; intros Hin.
  - inversion Hin.
  - rewrite GetUnspentWithdrawals_snoc.
    destruct (decide (HexToHash (cw_id c0) = HexToHash (cw_id c))) as [Heq|Hne].
    + exists c0. rewrite <- Heq, lookup_insert_eq.
      split; [apply elem_of_app; right; apply list_elem_of_singleton|]; done.
    + rewrite lookup_insert_ne by done.
      apply elem_of_app in Hin as [Hin|Hin].
      * destruct (IH Hin) as (c' & Hc' & Hid & Hlook).
        exists c'. split; [apply elem_of_app; by left|done].
      * apply list_elem_of_singleton in Hin. congruence.
Qed.

(** C2 at a record whose amount and fee are [2^63]: the withdrawal found
    under the record's id has a negative [Amount] and a negative [Fee],
    [-(2^63) * 10^10], where the claim promises [2^63 * 10^10]. *)
Theorem GetUnspentWithdrawals_high_bit (id : string) (addr : list byte) :
  GetUnspentWithdrawals HexToHash
    [{| cw_id := id; cw_address := addr;
        cw_amount := 2 ^ 63; cw_fee := 2 ^ 63 |}]
  !! HexToHash id
  = Some {| Withdrawal_Address := addr;
            Withdrawal_Amount := Some (- 2 ^ 63 * 10 ^ 10);
            Withdrawal_Fee := Some (- 2 ^ 63 * 10 ^ 10) |}.
Proof.
  change [?c] with ([] ++ [c]). rewrite GetUnspentWithdrawals_snoc.
  rewrite lookup_insert_eq. reflexivity.
Qed.

End withdrawals.

(** ** Decoding a payload *)

(** C3 at [high_fee_payload]: the first eight bytes read as a big-endian
    unsigned integer are [2^63], and the decoded [Fee] is [-(2^63)]. *)
Theorem DecodeWithdrawal_fee_high_bit :
  length high_fee_payload = 28%nat
  ∧ be_value (take 8 high_fee_payload) = 2 ^ 63
  ∧ DecodeWithdrawal (Some 0) high_fee_payload
    = Returns ({| Withdrawal_Address := replicate 20 x00;
                  Withdrawal_Amount := Some 0;
                  Withdrawal_Fee := Some (- 2 ^ 63) |}, None).
Proof. repeat split; vm_compute; reflexivity. Qed.

(** C4 at fee [2^63] and the address of twenty zero bytes: the payload
    produced by [GetWithdrawalData] decodes to the same address and to the
    fee [-(2^63)]. *)
Theorem roundtrip_fee_high_bit :
  is_uint64 (2 ^ 63)
  ∧ GetWithdrawalData (2 ^ 63) (replicate 20 x00)
    = Returns high_fee_payload
  ∧ GetWithdrawalData (2 ^ 63) (replicate 20 x00) ≫= DecodeWithdrawal (Some 0)
    = Returns ({| Withdrawal_Address := replicate 20 x00;
                  Withdrawal_Amount := Some 0;
                  Withdrawal_Fee := Some (- 2 ^ 63) |}, None).
Proof.
  split; [unfold is_uint64, uint64_max; lia|].
  split; vm_compute; reflexivity.
Qed.

(** C6, as amended. [DecodeWithdrawal] returns the error "wrong withdrawal
    data length" exactly when the payload is not 28 bytes long, whatever the
    value, nil included, and then together with the zero [Withdrawal],
    whose amount and fee are nil. On 28 bytes and a value that is not nil
    it returns a withdrawal (address, amount and fee all set) and no error.
    On 28 bytes and a nil value it returns nothing: the division stops at
    the nil pointer. *)
Theorem DecodeWithdrawal_length (value : option Z) (data : list byte) :
  DecodeWithdrawal value data
  = if decide (length data = 28%nat)
    then match value with
         | Some v =>
             Returns ({| Withdrawal_Address := drop 8 data;
                         Withdrawal_Amount := Some (v / Satoshi);
                         Withdrawal_Fee :=
                           Some (int64_of (be_value (take 8 data))) |}, None)
         | None =>
             Panics
               "runtime error: invalid memory address or nil pointer dereference"
         end
    else Returns ({| Withdrawal_Address := replicate 20 x00;
                     Withdrawal_Amount := None;
                     Withdrawal_Fee := None |},
                  Some "wrong withdrawal data length").
Proof.
  case_decide as Hlen.
  - destruct value as [v|].
    + now apply DecodeWithdrawal_good_length.
    + now apply DecodeWithdrawal_nil.
  - now apply DecodeWithdrawal_bad_length.
Qed.

(** C6, as stated, fails: a nil value with a payload of 28 zero bytes gives
    no withdrawal, the call panics. *)
Lemma DecodeWithdrawal_nil_value_panics :
  length (replicate 28 x00) = 28%nat
  ∧ ¬ (∃ w, DecodeWithdrawal None (replicate 28 x00) = Returns (w, None)).
Proof.
  split; [reflexivity|]. intros [w Hw]. vm_compute in Hw. discriminate.
Qed.

(** C7. The fee 1000 and the address of twenty zero bytes encode to
    [00 00 00 00 00 00 03 E8] followed by twenty zero bytes, and that
    payload decodes, with the amount 10_000_000_000, to the zero address,
    the amount 1 and the fee 1000. *)
Theorem scenario_fee_1000 :
  GetWithdrawalData 1000 (replicate 20 x00)
  = Returns ([x00; x00; x00; x00; x00; x00; x03; xe8] ++ replicate 20 x00)
  ∧ length ([x00; x00; x00; x00; x00; x00; x03; xe8] ++ replicate 20 x00)
    = 28%nat
  ∧ DecodeWithdrawal (Some 10000000000)
      ([x00; x00; x00; x00; x00; x00; x03; xe8] ++ replicate 20 x00)
    = Returns ({| Withdrawal_Address := replicate 20 x00;
                  Withdrawal_Amount := Some 1;
                  Withdrawal_Fee := Some 1000 |}, None).
Proof. repeat split; vm_compute; reflexivity. Qed.




(** ** The treasury check at startup *)

Lemma TREASURY_ACCOUNT_lower : ToLower TREASURY_ACCOUNT = TREASURY_ACCOUNT.
Proof. reflexivity. Qed.

Section startup_check.

Context {PrivateKey : Type}.
Variable HexToECDSA : string → PrivateKey + error.
Variable NewRequest : string → option error.
Variable Do : string → string → string → Response + error.
Variables (dbPath host : string) (port : Z) (rpcUser rpcPassword : string).

(** Once the treasury check has passed, [Init] returns; it does not panic. *)
Lemma Init_after_check (AddressHex : PrivateKey → string) (privKey : PrivateKey) :
  HexToECDSA TREASURY_PRIVATE_KEY = inl privKey →
  ToLower (AddressHex privKey) = TREASURY_ACCOUNT →
  ∃ events err,
    Init HexToECDSA AddressHex NewRequest Do
      dbPath host port rpcUser rpcPassword = (events, Returns err).
Proof.
  intros Hkey Hlow. unfold Init. rewrite Hkey, Hlow.
  rewrite decide_False by (intros Hne; now apply Hne).
  destruct (NewRequest _); [eauto|].
  destruct (Do _ _ _) as [res|err]; [|eauto].
  case_decide; eauto.
Qed.

(** C8. With the address derived from [TREASURY_PRIVATE_KEY]: if it
    differs from [TREASURY_ACCOUNT] by more than letter case, [Init] panics
    and nothing has been sent to the mainchain RPC; if it equals
    [TREASURY_ACCOUNT] up to letter case, [Init] does not panic, and it
    behaves as it does when the derived address is written exactly as
    [TREASURY_ACCOUNT]. *)
Theorem Init_treasury_check
    (AddressHex : PrivateKey → string) (privKey : PrivateKey) :
  HexToECDSA TREASURY_PRIVATE_KEY = inl privKey →
  (¬ equal_fold (AddressHex privKey) TREASURY_ACCOUNT →
   Init HexToECDSA AddressHex NewRequest Do
     dbPath host port rpcUser rpcPassword
   = ([], Panics ("treasury account: " +:+ TREASURY_ACCOUNT +:+
                  " != actual treasury account: " +:+
                  ToLower (AddressHex privKey))))
  ∧ (equal_fold (AddressHex privKey) TREASURY_ACCOUNT →
     (∃ events err,
        Init HexToECDSA AddressHex NewRequest Do
          dbPath host port rpcUser rpcPassword = (events, Returns err))
     ∧ Init HexToECDSA AddressHex NewRequest Do
         dbPath host port rpcUser rpcPassword
       = Init HexToECDSA (λ _, TREASURY_ACCOUNT) NewRequest Do
           dbPath host port rpcUser rpcPassword).
Proof.
  intros Hkey. unfold equal_fold. rewrite TREASURY_ACCOUNT_lower. split.
  - intros Hne. unfold Init. rewrite Hkey.
    rewrite decide_True by congruence. done.
  - intros Heq. split; [now apply (Init_after_check AddressHex privKey)|].
    unfold Init. now rewrite Hkey, Heq, TREASURY_ACCOUNT_lower.
Qed.

End startup_check.

Lemma Init_treasury_check_witness :
  (∃ events err,
     Init (λ _, inl tt) (λ _ : unit, mixed_case_account)
          (λ _, None) (λ _ _ _, inl ok_response)
          "db" "localhost" 8332 "user" "password" = (events, Returns err))
  ∧ Init (λ _, inl tt) (λ _ : unit, mixed_case_account)
         (λ _, None) (λ _ _ _, inl ok_response)
         "db" "localhost" 8332 "user" "password"
    = Init (λ _, inl tt) (λ _ : unit, TREASURY_ACCOUNT)
           (λ _, None) (λ _ _ _, inl ok_response)
           "db" "localhost" 8332 "user" "password".
Proof.
  apply (Init_treasury_check (λ _, inl tt) (λ _, None)
           (λ _ _ _, inl ok_response)
           "db" "localhost" 8332 "user" "password"
           (λ _ : unit, mixed_case_account) tt).
  - reflexivity.
  - reflexivity.
Defined.

(** A run that passes the check reaches the RPC request and the engine. *)
Example Init_mixed_case_run :
  Init (λ _, inl tt) (λ _ : unit, mixed_case_account)
       (λ _, None) (λ _ _ _, inl ok_response)
       "db" "localhost" 8332 "user" "password"
  = ([RpcRequest "http://localhost:8332" "user" "password";
      InitBmmEngine "db" "localhost" "user" "password" 8332],
     Returns None).
Proof. vm_compute. reflexivity. Qed.

(** A run with another address stops at the check. *)
Example Init_wrong_account_run :
  Init (λ _, inl tt) (λ _ : unit, "0x00")
       (λ _, None) (λ _ _ _, inl ok_response)
       "db" "localhost" 8332 "user" "password"
  = ([], Panics "treasury account: 0xc96aaa54e2d44c299564da76e1cd3184a2386b8d != actual treasury account: 0x00").
Proof. vm_compute. reflexivity. Qed.

(** ** Connecting a block without committing it *)

Section dry_run.

Context {Address Hash : Type} `{Countable Hash}.
Variable HexToAddress : string → Address.
Variable HexToHash : string → Hash.
Variable newDeposits : list (@Deposit Address) → list CDeposit.
Variable newWithdrawals : gmap Hash Withdrawal → list CWithdrawal.
Variable newRefunds : list (@Refund Hash) → list CRefund.

Lemma connect_block_just_checking (eng : Engine) (ds : list CDeposit)
    (ws : list CWithdrawal) (rs : list CRefund) :
  connect_block eng ds ws rs true = (connect_valid eng ds ws rs, eng).
Proof.
  unfold connect_block. now rewrite andb_false_r.
Qed.

(** C9. [ConnectBlock] with [just_checking] leaves the engine as it was:
    [GetUnspentWithdrawals], [getDepositOutputs] and [GetDepositOutputs]
    answer afterwards what they would have answered before. *)
Theorem ConnectBlock_just_checking
    (eng : Engine) (deposits : list (@Deposit Address))
    (withdrawals : gmap Hash Withdrawal) (refunds : list (@Refund Hash)) :
  let eng' :=
    (ConnectBlock newDeposits newWithdrawals newRefunds
       eng deposits withdrawals refunds true).2 in
  eng' = eng
  ∧ GetUnspentWithdrawals HexToHash (get_unspent_withdrawals eng')
    = GetUnspentWithdrawals HexToHash (get_unspent_withdrawals eng)
  ∧ getDepositOutputs (get_deposit_outputs eng')
    = getDepositOutputs (get_deposit_outputs eng)
  ∧ GetDepositOutputs HexToAddress (get_deposit_outputs eng')
    = GetDepositOutputs HexToAddress (get_deposit_outputs eng).
Proof.
  unfold ConnectBlock. rewrite connect_block_just_checking. simpl.
  repeat split.
Qed.

End dry_run.

(** The same block, committed, does change what the engine reports. *)
Example connect_block_commits :
  let d := {| cd_address := "0x01"; cd_amount := 5 |} in
  let eng := {| deposit_outputs := [d]; unspent_withdrawals := [];
                spent_withdrawals := []; treasury_balance := 100 |} in
  connect_block eng [d] [] [] true = (true, eng)
  ∧ get_deposit_outputs (connect_block eng [d] [] [] false).2
    = {| cds_valid := true; cds_items := [] |}.
Proof. vm_compute. split; reflexivity. Qed.

(** * Further properties of the package *)

(** ** Deposit ingestion *)

(** X1. [GetDepositOutputs] is all or nothing: an invalid engine answer
    gives the empty list and the error "failed to get deposits", whatever
    records came with it; a valid answer gives no error and exactly one
    deposit per record, in the engine's order. *)
Theorem GetDepositOutputs_all_or_nothing {Address}
    (HexToAddress : string → Address) (ptrDeposits : CDeposits) :
  let r := GetDepositOutputs HexToAddress ptrDeposits in
  r.2 = (if cds_valid ptrDeposits then None
         else Some "failed to get deposits")
  ∧ length r.1
    = (if cds_valid ptrDeposits then length (cds_items ptrDeposits) else 0%nat)
  ∧ Deposit_Address <$> r.1
    = (if cds_valid ptrDeposits
       then (λ c, HexToAddress (cd_address c)) <$> cds_items ptrDeposits
       else []).
Proof.
  destruct (cds_valid ptrDeposits) eqn:Hvalid; simpl.
  - rewrite GetDepositOutputs_valid by done. simpl.
    rewrite length_fmap, <- list_fmap_compose. done.
  - rewrite GetDepositOutputs_invalid by done. done.
Qed.

(** X2. A deposit amount is the record's 64-bit amount read as a signed
    number: for a record amount [m] in the unsigned 64-bit range the
    [Amount] is [m] when [m < 2^63] and [m - 2^64] otherwise, so it always
    lies in [[-2^63, 2^63)]. *)
Theorem GetDepositOutputs_amount_signed {Address}
    (HexToAddress : string → Address)
    (ptrDeposits : CDeposits) (i : nat) (c : CDeposit) :
  cds_valid ptrDeposits = true →
  cds_items ptrDeposits !! i = Some c →
  is_uint64 (cd_amount c) →
  ∃ d a, (GetDepositOutputs HexToAddress ptrDeposits).1 !! i = Some d
         ∧ Deposit_Amount d = Some a
         ∧ a = (if decide (cd_amount c < 2 ^ 63)
                then cd_amount c else cd_amount c - 2 ^ 64)
         ∧ - 2 ^ 63 ≤ a < 2 ^ 63.
Proof.
  intros Hvalid Hc Hm. rewrite GetDepositOutputs_valid by done. simpl.
  rewrite list_lookup_fmap, Hc. simpl.
  eexists _, _. split; [done|]. simpl. split; [done|].
  rewrite uint64_of_id by done.
  unfold is_uint64, uint64_max in Hm.
  case_decide.
  - rewrite int64_of_low by lia. lia.
  - rewrite int64_of_high by lia. lia.
Qed.

Lemma GetDepositOutputs_amount_signed_witness :
  ∃ d a, (GetDepositOutputs (λ s, s) max_amount_deposit).1 !! 0%nat = Some d
         ∧ Deposit_Amount d = Some a
         ∧ a = (if decide (2 ^ 64 - 1 < 2 ^ 63)
                then 2 ^ 64 - 1 else 2 ^ 64 - 1 - 2 ^ 64)
         ∧ - 2 ^ 63 ≤ a < 2 ^ 63.
Proof.
  apply (GetDepositOutputs_amount_signed (λ s, s) max_amount_deposit 0
           {| cd_address := "0x02"; cd_amount := 2 ^ 64 - 1 |}).
  - reflexivity.
  - reflexivity.
  - unfold is_uint64, uint64_max. simpl. lia.
Defined.

(** X3. [getDepositOutputs] hands the engine's records over unchanged: for
    a valid answer whose amounts are unsigned 64-bit numbers the raw
    deposits carry the same addresses and amounts in the same order and the
    error is nil. *)
Theorem getDepositOutputs_unchanged (ptrDeposits : CDeposits) :
  cds_valid ptrDeposits = true →
  Forall (λ c, is_uint64 (cd_amount c)) (cds_items ptrDeposits) →
  getDepositOutputs ptrDeposits
  = ((λ c, {| address := cd_address c; amount := cd_amount c |})
       <$> cds_items ptrDeposits, None).
Proof.
  intros Hvalid Hall. rewrite getDepositOutputs_valid by done.
  f_equal. apply list_fmap_ext. intros k c Hk. f_equal.
  apply uint64_of_id. rewrite Forall_lookup in Hall. eauto.
Qed.

Lemma getDepositOutputs_unchanged_witness :
  getDepositOutputs max_amount_deposit
  = ([{| address := "0x02"; amount := 2 ^ 64 - 1 |}], None).
Proof.
  apply (getDepositOutputs_unchanged max_amount_deposit).
  - reflexivity.
  - repeat constructor; unfold uint64_max; simpl; lia.
Defined.

(** ** The payload codec, both ways *)

Lemma to_byte_eq (x : Z) (b : byte) : x mod 256 = byte_val b → to_byte x = b.
Proof.
  intros Hx. rewrite <- (to_byte_val b). unfold to_byte.
  pose proof (byte_val_range b). rewrite Hx, (Z.mod_small (byte_val b)) by lia.
  done.
Qed.

(** Writing the big-endian value of eight bytes gives the bytes back. *)
Lemma fee_bytes_be_value (l : list byte) :
  length l = 8%nat → fee_bytes (be_value l) = l.
Proof.
  intros Hlen.
  do 8 (destruct l as [|? l]; [simpl in Hlen; lia|]).
  destruct l; [|simpl in Hlen; lia].
  unfold fee_bytes, be_value. simpl fold_left.
  rewrite !Z.shiftr_div_pow2 by lia.
  repeat f_equal; apply to_byte_eq;
    repeat match goal with
           | |- context [byte_val ?x] =>
               let Hx := fresh "Hx" in
               pose proof (byte_val_range x) as Hx;
               generalize dependent (byte_val x); intros
           end; solve_be.
Qed.

Lemma int64_of_inj (x y : Z) :
  is_uint64 x → is_uint64 y → int64_of x = int64_of y → x = y.
Proof.
  unfold is_uint64, uint64_max. intros Hx Hy.
  destruct (decide (x < 2 ^ 63)); destruct (decide (y < 2 ^ 63));
    rewrite ?(int64_of_low x), ?(int64_of_high x),
            ?(int64_of_low y), ?(int64_of_high y) by lia; lia.
Qed.

Lemma uint64_of_int64_of (x : Z) : is_uint64 x → uint64_of (int64_of x) = x.
Proof.
  unfold is_uint64, uint64_max, uint64_of. intros Hx.
  destruct (decide (x < 2 ^ 63)).
  - rewrite int64_of_low by lia. apply Z.mod_small. lia.
  - rewrite int64_of_high by lia.
    replace (x - 2 ^ 64) with (x + (-1) * 2 ^ 64) by lia.
    rewrite Z.mod_add by lia. apply Z.mod_small. lia.
Qed.

(** X4. For a 20-byte address and any fee, [GetWithdrawalData] returns 28
    bytes: the first eight are the big-endian form of the fee's low 64
    bits, the last twenty are the address; [DecodeWithdrawal] never answers
    such a payload with the length error. *)
Theorem GetWithdrawalData_layout (value fee : Z) (cAddress : list byte) :
  length cAddress = MainchainAddressLength →
  ∃ data,
    GetWithdrawalData fee cAddress = Returns data
    ∧ length data = 28%nat
    ∧ be_value (take 8 data) = fee mod 2 ^ 64
    ∧ drop 8 data = cAddress
    ∧ ∃ w, DecodeWithdrawal (Some value) data = Returns (w, None).
Proof.
  intros Hlen. exists (fee_bytes fee ++ cAddress).
  assert (length (fee_bytes fee ++ cAddress) = 28%nat) as Hdata.
  { rewrite length_app, Hlen. done. }
  split; [now apply GetWithdrawalData_ok|]. split; [done|].
  change 8%nat with (length (fee_bytes fee)) at 1 2.
  rewrite take_app_length, drop_app_length, be_value_fee_bytes.
  repeat split; try done.
  eexists. now apply DecodeWithdrawal_good_length.
Qed.

Lemma GetWithdrawalData_layout_witness :
  ∃ data,
    GetWithdrawalData 1000 (replicate 20 x01) = Returns data
    ∧ length data = 28%nat
    ∧ be_value (take 8 data) = 1000 mod 2 ^ 64
    ∧ drop 8 data = replicate 20 x01
    ∧ ∃ w, DecodeWithdrawal (Some 5) data = Returns (w, None).
Proof.
  apply (GetWithdrawalData_layout 5 1000 (replicate 20 x01)). reflexivity.
Defined.

(** A 28-byte payload is its fee bytes, rebuilt from the decoded fee, in
    front of its last twenty bytes. *)
Lemma payload_rebuilt (data : list byte) :
  length data = payload_length →
  fee_bytes (uint64_of (int64_of (be_value (take FeeLength data))))
    ++ drop FeeLength data = data.
Proof.
  unfold payload_length, FeeLength, MainchainAddressLength. intros Hlen.
  rewrite uint64_of_int64_of
    by (apply be_value_uint64; rewrite length_take; lia).
  rewrite fee_bytes_be_value by (rewrite length_take; lia).
  apply take_drop.
Qed.

Lemma DecodeWithdrawal_accepted (value : option Z) (data : list byte)
    (w : Withdrawal) :
  DecodeWithdrawal value data = Returns (w, None) →
  length data = payload_length
  ∧ ∃ v, value = Some v ∧ w = decoded v data.
Proof.
  intros Hdec.
  destruct (decide (length data = payload_length)) as [Hlen|Hlen].
  - destruct value as [v|].
    + rewrite DecodeWithdrawal_good_length in Hdec by done.
      split; [done|]. exists v. split; [done|congruence].
    + rewrite DecodeWithdrawal_nil in Hdec by done. done.
  - rewrite DecodeWithdrawal_bad_length in Hdec by done. done.
Qed.

(** X5. Encoding what was decoded gives the payload back: if
    [DecodeWithdrawal] accepts a payload and returns fee [f] and address
    [a], then [GetWithdrawalData] on [uint64(f)] and [a] returns that very
    payload. *)
Theorem GetWithdrawalData_DecodeWithdrawal
    (value : option Z) (f : Z) (data : list byte) (w : Withdrawal) :
  DecodeWithdrawal value data = Returns (w, None) →
  Withdrawal_Fee w = Some f →
  GetWithdrawalData (uint64_of f) (Withdrawal_Address w) = Returns data.
Proof.
  intros Hdec Hfee.
  apply DecodeWithdrawal_accepted in Hdec as (Hlen & v & _ & ->).
  simpl in Hfee. injection Hfee as <-. simpl Withdrawal_Address.
  rewrite GetWithdrawalData_ok
    by (rewrite length_drop, Hlen; done).
  now rewrite payload_rebuilt.
Qed.

Lemma GetWithdrawalData_DecodeWithdrawal_witness :
  GetWithdrawalData (uint64_of (- 2 ^ 63)) (replicate 20 x00)
  = Returns high_fee_payload.
Proof.
  apply (GetWithdrawalData_DecodeWithdrawal (Some 0) (- 2 ^ 63)
           high_fee_payload
           {| Withdrawal_Address := replicate 20 x00;
              Withdrawal_Amount := Some 0;
              Withdrawal_Fee := Some (- 2 ^ 63) |}).
  - vm_compute. reflexivity.
  - reflexivity.
Defined.

(** X6. [GetWithdrawalData] is injective: two unsigned 64-bit fees and two
    20-byte addresses that give the same payload are the same fee and the
    same address. *)
Theorem GetWithdrawalData_inj (fee fee' : Z) (cAddress cAddress' : list byte) :
  is_uint64 fee → is_uint64 fee' →
  length cAddress = MainchainAddressLength →
  length cAddress' = MainchainAddressLength →
  GetWithdrawalData fee cAddress = GetWithdrawalData fee' cAddress' →
  fee = fee' ∧ cAddress = cAddress'.
Proof.
  intros Hfee Hfee' Hlen Hlen'. rewrite !GetWithdrawalData_ok by done.
  intros Hret.
  assert (fee_bytes fee ++ cAddress = fee_bytes fee' ++ cAddress') as Heq
    by congruence.
  apply app_inj_1 in Heq as [Hbytes Haddr]; [|done].
  split; [|done].
  apply (f_equal be_value) in Hbytes. rewrite !be_value_fee_bytes in Hbytes.
  unfold is_uint64, uint64_max in *.
  rewrite !Z.mod_small in Hbytes by lia. done.
Qed.

Lemma GetWithdrawalData_inj_witness :
  1000 = 1000 ∧ replicate 20 x00 = replicate 20 x00.
Proof.
  apply (GetWithdrawalData_inj 1000 1000 (replicate 20 x00) (replicate 20 x00)).
  - unfold is_uint64, uint64_max. lia.
  - unfold is_uint64, uint64_max. lia.
  - reflexivity.
  - reflexivity.
  - reflexivity.
Defined.

(** X7. [DecodeWithdrawal] loses nothing of an accepted payload: two
    28-byte payloads that decode to the same fee and the same address are
    the same payload. *)
Theorem DecodeWithdrawal_inj (value value' : option Z)
    (data data' : list byte)
    (w w' : Withdrawal) :
  DecodeWithdrawal value data = Returns (w, None) →
  DecodeWithdrawal value' data' = Returns (w', None) →
  Withdrawal_Fee w = Withdrawal_Fee w' →
  Withdrawal_Address w = Withdrawal_Address w' →
  data = data'.
Proof.
  intros Hd Hd' Hfee Haddr.
  apply DecodeWithdrawal_accepted in Hd as (Hlen & v & _ & ->).
  apply DecodeWithdrawal_accepted in Hd' as (Hlen' & v' & _ & ->).
  simpl in Hfee, Haddr. injection Hfee as Hfee.
  rewrite <- (payload_rebuilt data Hlen), <- (payload_rebuilt data' Hlen').
  now rewrite Hfee, Haddr.
Qed.

Lemma DecodeWithdrawal_inj_witness : high_fee_payload = high_fee_payload.
Proof.
  apply (DecodeWithdrawal_inj (Some 0) (Some 7)
           high_fee_payload high_fee_payload
           (decoded 0 high_fee_payload) (decoded 7 high_fee_payload)).
  - vm_compute. reflexivity.
  - vm_compute. reflexivity.
  - reflexivity.
  - reflexivity.
Defined.

(** X8. The decoded amount is the floor of [value / 10^10], also for a
    negative value: it is the one integer [a] with
    [a * 10^10 <= value < (a + 1) * 10^10]. *)
Theorem DecodeWithdrawal_amount_floor (value : Z) (data : list byte) :
  length data = 28%nat →
  ∃ w a, DecodeWithdrawal (Some value) data = Returns (w, None)
         ∧ Withdrawal_Amount w = Some a
         ∧ a * 10 ^ 10 ≤ value < (a + 1) * 10 ^ 10.
Proof.
  intros Hlen. rewrite DecodeWithdrawal_good_length by done.
  eexists _, _. split; [done|]. split; [done|].
  change (10 ^ 10) with Satoshi. pose proof Satoshi_pos as Hs.
  pose proof (Z.div_mod value Satoshi ltac:(lia)).
  pose proof (Z.mod_pos_bound value Satoshi Hs). lia.
Qed.

Lemma DecodeWithdrawal_amount_floor_witness :
  ∃ w a, DecodeWithdrawal (Some (-1)) high_fee_payload = Returns (w, None)
         ∧ Withdrawal_Amount w = Some a
         ∧ a * 10 ^ 10 ≤ -1 < (a + 1) * 10 ^ 10.
Proof.
  apply (DecodeWithdrawal_amount_floor (-1) high_fee_payload). reflexivity.
Defined.

(** X9. On an accepted payload the decoded address is the last twenty
    bytes of the payload, and the decoded fee lies in [[-2^63, 2^63)] and
    agrees with the big-endian value of the first eight bytes modulo
    [2^64]. *)
Theorem DecodeWithdrawal_fields (value : Z) (data : list byte) :
  length data = 28%nat →
  ∃ w f, DecodeWithdrawal (Some value) data = Returns (w, None)
         ∧ Withdrawal_Address w = drop 8 data
         ∧ length (Withdrawal_Address w) = 20%nat
         ∧ Withdrawal_Fee w = Some f
         ∧ - 2 ^ 63 ≤ f < 2 ^ 63
         ∧ f mod 2 ^ 64 = be_value (take 8 data).
Proof.
  intros Hlen. rewrite DecodeWithdrawal_good_length by done.
  eexists _, _. split; [done|]. simpl.
  split; [done|]. split; [rewrite length_drop; unfold FeeLength; lia|].
  split; [done|].
  assert (is_uint64 (be_value (take FeeLength data))) as Hu.
  { apply be_value_uint64. rewrite length_take. unfold FeeLength. lia. }
  split.
  - unfold int64_of.
    pose proof (Z.mod_pos_bound (be_value (take FeeLength data) + 2 ^ 63)
                  (2 ^ 64) ltac:(lia)). lia.
  - apply (uint64_of_int64_of _ Hu).
Qed.

Lemma DecodeWithdrawal_fields_witness :
  ∃ w f, DecodeWithdrawal (Some 0) high_fee_payload = Returns (w, None)
         ∧ Withdrawal_Address w = drop 8 high_fee_payload
         ∧ length (Withdrawal_Address w) = 20%nat
         ∧ Withdrawal_Fee w = Some f
         ∧ - 2 ^ 63 ≤ f < 2 ^ 63
         ∧ f mod 2 ^ 64 = be_value (take 8 high_fee_payload).
Proof.
  apply (DecodeWithdrawal_fields 0 high_fee_payload). reflexivity.
Defined.

(** ** The map of unspent withdrawals *)

Section unspent.

Context {Hash : Type} `{Countable Hash} (HexToHash : string → Hash).

Local Abbreviation key c := (HexToHash (cw_id c)).

(** X10. The keys of the result are exactly the hashes of the record ids:
    a hash is unbound in the map if and only if no record has it; in
    particular an empty engine answer gives the empty map. *)
Theorem GetUnspentWithdrawals_keys (cs : list CWithdrawal) (k : Hash) :
  (GetUnspentWithdrawals HexToHash cs !! k = None
   ↔ Forall (λ c, key c ≠ k) cs)
  ∧ dom (GetUnspentWithdrawals HexToHash cs)
    = list_to_set ((λ c, key c) <$> cs)
  ∧ GetUnspentWithdrawals HexToHash [] = ∅.
Proof.
  assert (∀ l, dom (GetUnspentWithdrawals HexToHash l)
               = list_to_set ((λ c, key c) <$> l)) as Hdom.
  { induction l as [|c l IH] using rev_ind; [apply dom_empty_L|].
    rewrite GetUnspentWithdrawals_snoc, dom_insert_L, IH.
    rewrite fmap_app, list_to_set_app_L. simpl.
    rewrite union_empty_r_L. apply (comm_L (∪)). }
  split; [|split; [apply Hdom|done]].
  rewrite <- not_elem_of_dom, Hdom, elem_of_list_to_set.
  rewrite list_elem_of_fmap, Forall_forall. split.
  - intros Hno c Hc Hk. apply Hno. eauto.
  - intros Hall (c & -> & Hc). by apply (Hall c).
Qed.

Lemma unspent_lookup_fresh (cs : list CWithdrawal) (k : Hash) :
  Forall (λ c, key c ≠ k) cs →
  GetUnspentWithdrawals HexToHash cs !! k = None.
Proof.
  induction cs as [|c cs IH] using rev_ind; intros Hall; [done|].
  apply Forall_app in Hall as [Hcs Hc]. apply Forall_inv in Hc.
  rewrite GetUnspentWithdrawals_snoc, lookup_insert_ne by done.
  by apply IH.
Qed.

(** Later records override earlier ones. *)
Lemma unspent_lookup_app (l1 l2 : list CWithdrawal) (k : Hash) :
  GetUnspentWithdrawals HexToHash (l1 ++ l2) !! k
  = match GetUnspentWithdrawals HexToHash l2 !! k with
    | Some w => Some w
    | None => GetUnspentWithdrawals HexToHash l1 !! k
    end.
Proof.
  induction l2 as [|c l2 IH] using rev_ind.
  - now rewrite app_nil_r.
  - rewrite app_assoc, !GetUnspentWithdrawals_snoc.
    destruct (decide (key c = k)) as [<-|Hne].
    + now rewrite !lookup_insert_eq.
    + now rewrite !lookup_insert_ne by done.
Qed.

Lemma unspent_origin (cs : list CWithdrawal) (k : Hash) (w : Withdrawal) :
  GetUnspentWithdrawals HexToHash cs !! k = Some w →
  ∃ c, c ∈ cs ∧ key c = k ∧ w = withdrawal_of c.
Proof.
  induction cs as [|c cs IH] using rev_ind; [done|].
  rewrite GetUnspentWithdrawals_snoc.
  destruct (decide (key c = k)) as [<-|Hne].
  - rewrite lookup_insert_eq. intros [= <-].
    exists c. split; [apply elem_of_app; right; apply list_elem_of_singleton|];
      done.
  - rewrite lookup_insert_ne by done. intros Hk.
    destruct (IH Hk) as (c' & Hc' & Hkey & Hw).
    exists c'. split; [apply elem_of_app; by left|done].
Qed.

(** X11. When several records share a key the last one wins: a record
    followed only by records with other keys is the one the map holds under
    its key. *)
Theorem GetUnspentWithdrawals_last_wins
    (pre post : list CWithdrawal) (c : CWithdrawal) :
  Forall (λ c', key c' ≠ key c) post →
  GetUnspentWithdrawals HexToHash (pre ++ c :: post) !! key c
  = Some (withdrawal_of c).
Proof.
  intros Hpost. rewrite (cons_middle c pre post), app_assoc.
  rewrite unspent_lookup_app, unspent_lookup_fresh by done.
  rewrite GetUnspentWithdrawals_snoc. apply lookup_insert_eq.
Qed.

(** X12. The map holds nothing but withdrawals built from records: every
    binding is the withdrawal of the last record whose id hashes to the
    key. *)
Theorem GetUnspentWithdrawals_from_records
    (cs : list CWithdrawal) (k : Hash) (w : Withdrawal) :
  GetUnspentWithdrawals HexToHash cs !! k = Some w →
  ∃ pre c post,
    cs = pre ++ c :: post
    ∧ key c = k
    ∧ Forall (λ c', key c' ≠ k) post
    ∧ w = withdrawal_of c.
Proof.
  induction cs as [|c0 cs IH] using rev_ind; [done|].
  rewrite GetUnspentWithdrawals_snoc.
  destruct (decide (key c0 = k)) as [<-|Hne].
  - rewrite lookup_insert_eq. intros [= <-].
    exists cs, c0, []. by repeat split.
  - rewrite lookup_insert_ne by done. intros Hk.
    destruct (IH Hk) as (pre & c & post & -> & Hkey & Hpost & Hw).
    exists pre, c, (post ++ [c0]). rewrite <- app_assoc. simpl.
    repeat split; try done.
    apply Forall_app. split; [done|]. by apply Forall_singleton.
Qed.

(** X13. The map never has more bindings than the engine answer has
    records, and it has exactly as many when the record ids hash to
    pairwise different keys. *)
Theorem GetUnspentWithdrawals_size (cs : list CWithdrawal) :
  (size (GetUnspentWithdrawals HexToHash cs) ≤ length cs)%nat
  ∧ (NoDup ((λ c, key c) <$> cs) →
     size (GetUnspentWithdrawals HexToHash cs) = length cs).
Proof.
  induction cs as [|c cs [IHle IHeq]] using rev_ind; [done|].
  rewrite GetUnspentWithdrawals_snoc, length_app. simpl length.
  destruct (GetUnspentWithdrawals HexToHash cs !! key c) as [w|] eqn:Hk.
  - split.
    + rewrite map_size_insert_Some by done. lia.
    + rewrite fmap_app. intros Hnd. apply NoDup_app in Hnd as (_ & Hdisj & _).
      exfalso.
      destruct (unspent_origin _ _ _ Hk) as (c' & Hc' & Hkey & _).
      apply (Hdisj (key c)); [|apply list_elem_of_singleton; done].
      apply list_elem_of_fmap. exists c'. by rewrite Hkey.
  - rewrite map_size_insert_None by done. split; [lia|].
    rewrite fmap_app. intros Hnd. apply NoDup_app in Hnd as (Hnd & _ & _).
    rewrite IHeq by done. lia.
Qed.

(** X14. For the record that holds a key last, with amount and fee below
    [2^63], the map holds the record's address, the amount times [10^10]
    and the fee times [10^10]. *)
Theorem GetUnspentWithdrawals_scaled
    (pre post : list CWithdrawal) (c : CWithdrawal) :
  Forall (λ c', key c' ≠ key c) post →
  0 ≤ cw_amount c < 2 ^ 63 →
  0 ≤ cw_fee c < 2 ^ 63 →
  GetUnspentWithdrawals HexToHash (pre ++ c :: post) !! key c
  = Some {| Withdrawal_Address := cw_address c;
            Withdrawal_Amount := Some (cw_amount c * 10 ^ 10);
            Withdrawal_Fee := Some (cw_fee c * 10 ^ 10) |}.
Proof.
  intros Hpost Ha Hf. rewrite (cons_middle c pre post), app_assoc.
  rewrite unspent_lookup_app, unspent_lookup_fresh by done.
  rewrite GetUnspentWithdrawals_snoc, lookup_insert_eq.
  unfold withdrawal_of. now rewrite !int64_of_low by done.
Qed.

(** X15. Every amount and fee in the map is a whole number of satoshis in
    the signed 64-bit range: dividing it by [Satoshi] leaves no remainder,
    so scaling the quotient back up returns the stored value. *)
Theorem GetUnspentWithdrawals_whole_satoshis
    (cs : list CWithdrawal) (k : Hash) (w : Withdrawal) :
  GetUnspentWithdrawals HexToHash cs !! k = Some w →
  ∃ v a fv f,
    Withdrawal_Amount w = Some v ∧ Withdrawal_Fee w = Some fv
    ∧ big.Div v Satoshi = Returns a ∧ big.Mul a Satoshi = v
    ∧ big.Div fv Satoshi = Returns f ∧ big.Mul f Satoshi = fv
    ∧ - 2 ^ 63 ≤ a < 2 ^ 63 ∧ - 2 ^ 63 ≤ f < 2 ^ 63.
Proof.
  intros Hk.
  destruct (unspent_origin _ _ _ Hk) as (c & _ & _ & ->).
  assert (∀ x, - 2 ^ 63 ≤ int64_of x < 2 ^ 63) as Hrange.
  { intros x. unfold int64_of.
    pose proof (Z.mod_pos_bound (x + 2 ^ 63) (2 ^ 64) ltac:(lia)). lia. }
  exists (int64_of (cw_amount c) * Satoshi), (int64_of (cw_amount c)),
         (int64_of (cw_fee c) * Satoshi), (int64_of (cw_fee c)).
  rewrite !Div_Satoshi, !Z.div_mul by (pose proof Satoshi_pos; lia).
  repeat split; try done; apply Hrange.
Qed.

End unspent.

Lemma GetUnspentWithdrawals_last_wins_witness :
  GetUnspentWithdrawals (λ s, s)
    ([withdrawal_aa_5] ++ withdrawal_aa_9 :: [withdrawal_bb_7]) !! "aa"
  = Some (withdrawal_of withdrawal_aa_9).
Proof.
  apply (GetUnspentWithdrawals_last_wins (λ s, s)
           [withdrawal_aa_5] [withdrawal_bb_7] withdrawal_aa_9).
  repeat constructor. simpl. discriminate.
Defined.

Lemma GetUnspentWithdrawals_from_records_witness :
  ∃ pre c post,
    [withdrawal_aa_5; withdrawal_aa_9; withdrawal_bb_7] = pre ++ c :: post
    ∧ cw_id c = "aa"
    ∧ Forall (λ c', cw_id c' ≠ "aa") post
    ∧ withdrawal_of withdrawal_aa_9 = withdrawal_of c.
Proof.
  apply (GetUnspentWithdrawals_from_records (λ s, s)
           [withdrawal_aa_5; withdrawal_aa_9; withdrawal_bb_7] "aa").
  vm_compute. reflexivity.
Defined.

Lemma GetUnspentWithdrawals_size_witness :
  size (GetUnspentWithdrawals (λ s, s) [withdrawal_aa_5; withdrawal_bb_7])
  = 2%nat.
Proof.
  apply (GetUnspentWithdrawals_size (λ s, s)
           [withdrawal_aa_5; withdrawal_bb_7]).
  simpl. apply (bool_decide_unpack _). vm_compute. exact I.
Defined.

Lemma GetUnspentWithdrawals_scaled_witness :
  GetUnspentWithdrawals (λ s, s)
    ([withdrawal_aa_5] ++ withdrawal_aa_9 :: [withdrawal_bb_7]) !! "aa"
  = Some {| Withdrawal_Address := replicate 20 x02;
            Withdrawal_Amount := Some (9 * 10 ^ 10);
            Withdrawal_Fee := Some (3 * 10 ^ 10) |}.
Proof.
  apply (GetUnspentWithdrawals_scaled (λ s, s)
           [withdrawal_aa_5] [withdrawal_bb_7] withdrawal_aa_9).
  - repeat constructor. simpl. discriminate.
  - simpl. lia.
  - simpl. lia.
Defined.

Lemma GetUnspentWithdrawals_whole_satoshis_witness :
  ∃ v a fv f,
    Withdrawal_Amount (withdrawal_of withdrawal_bb_7) = Some v
    ∧ Withdrawal_Fee (withdrawal_of withdrawal_bb_7) = Some fv
    ∧ big.Div v Satoshi = Returns a ∧ big.Mul a Satoshi = v
    ∧ big.Div fv Satoshi = Returns f ∧ big.Mul f Satoshi = fv
    ∧ - 2 ^ 63 ≤ a < 2 ^ 63 ∧ - 2 ^ 63 ≤ f < 2 ^ 63.
Proof.
  apply (GetUnspentWithdrawals_whole_satoshis (λ s, s)
           [withdrawal_aa_5; withdrawal_aa_9; withdrawal_bb_7] "bb").
  vm_compute. reflexivity.
Defined.

(** ** Startup beyond the treasury check *)

Section startup_run.

Context {PrivateKey : Type}.
Variable HexToECDSA : string → PrivateKey + error.
Variable AddressHex : PrivateKey → string.
Variable NewRequest : string → option error.
Variable Do : string → string → string → Response + error.
Variables (dbPath host : string) (port : Z) (rpcUser rpcPassword : string).

Local Abbreviation url := ("http://" +:+ host +:+ ":" +:+ pretty port).

Ltac Init_cases :=
  unfold Init;
  repeat match goal with
         | |- context [match ?x with _ => _ end] =>
             match x with
             | decide _ => destruct x
             | _ => let E := fresh "E" in destruct x eqn:E
             end
         end; simpl.

(** X16. [Init] returns a nil error exactly when the key parses, the
    treasury check passes, the request can be built, the mainchain answers
    and its status is 200. *)
Theorem Init_nil_iff :
  (Init HexToECDSA AddressHex NewRequest Do
     dbPath host port rpcUser rpcPassword).2 = Returns None
  ↔ ∃ privKey res,
      HexToECDSA TREASURY_PRIVATE_KEY = inl privKey
      ∧ ToLower (AddressHex privKey) = TREASURY_ACCOUNT
      ∧ NewRequest url = None
      ∧ Do url rpcUser rpcPassword = inl res
      ∧ StatusCode res = StatusOK.
Proof.
  split.
  - Init_cases; intros Hrun; try discriminate.
    eexists _, _. repeat split; try done.
    + symmetry. by apply dec_stable.
    + by apply dec_stable.
  - intros (privKey & res & Hkey & Hlow & Hreq & Hdo & Hstatus).
    unfold Init. rewrite Hkey, Hlow, Hreq, Hdo.
    rewrite decide_False by (intros Hne; by apply Hne).
    rewrite decide_False by (intros Hne; by apply Hne). done.
Qed.

(** X17. The BMM engine is initialised exactly by the runs that return a
    nil error: the trace contains [InitBmmEngine] if and only if the result
    is [nil]; a run that panics or returns an error never initialises it. *)
Theorem Init_engine_iff_nil :
  let r := Init HexToECDSA AddressHex NewRequest Do
             dbPath host port rpcUser rpcPassword in
  InitBmmEngine dbPath host rpcUser rpcPassword port ∈ r.1
  ↔ r.2 = Returns None.
Proof.
  cbv zeta.
  Init_cases; split; intros Hrun; try discriminate; try done;
    try (by apply elem_of_nil in Hrun);
    try (apply list_elem_of_singleton in Hrun; discriminate).
  apply list_elem_of_further, list_elem_of_here.
Qed.

(** X18. [Init] contacts the mainchain at most once, at
    [http://host:port] with the credentials it was given, and only then may
    initialise the engine: the trace is a prefix of that request followed
    by the initialisation. A run that panics, or whose request cannot be
    built, has an empty trace. *)
Theorem Init_trace :
  let r := Init HexToECDSA AddressHex NewRequest Do
             dbPath host port rpcUser rpcPassword in
  r.1 `prefix_of`
    [RpcRequest url rpcUser rpcPassword;
     InitBmmEngine dbPath host rpcUser rpcPassword port]
  ∧ (∀ msg, r.2 = Panics msg → r.1 = [])
  ∧ (∀ err, NewRequest url = Some err → r.1 = []).
Proof.
  cbv zeta.
  split; [|split].
  - Init_cases; try apply prefix_nil;
      try (by exists [InitBmmEngine dbPath host rpcUser rpcPassword port]);
      by exists [].
  - intros msg. Init_cases; intros Hrun; by try discriminate.
  - intros err Herr. unfold Init. rewrite Herr.
    repeat case_match; done.
Qed.

End startup_run.

Lemma Init_trace_witness :
  (Init (λ _, inl tt) (λ _ : unit, "0x00")
        (λ _, None) (λ _ _ _, inl ok_response)
        "db" "localhost" 8332 "user" "password").1 = [].
Proof.
  destruct (Init_trace (λ _, inl tt) (λ _ : unit, "0x00")
              (λ _, None) (λ _ _ _, inl ok_response)
              "db" "localhost" 8332 "user" "password") as (_ & Hpanic & _).
  eapply Hpanic. vm_compute. reflexivity.
Defined.

(** ** Hashes handed to the engine *)

Lemma nibbles_range (v : byte) :
  0 ≤ byte_val v ≫ 4 < 16 ∧ 0 ≤ Z.land (byte_val v) 15 < 16
  ∧ byte_val v = 16 * (byte_val v ≫ 4) + Z.land (byte_val v) 15.
Proof.
  pose proof (byte_val_range v) as Hv.
  rewrite Z.shiftr_div_pow2 by lia.
  change 15 with (Z.ones 4). rewrite Z.land_ones by lia.
  change (2 ^ 4) with 16. solve_be.
Qed.

Lemma hex_digit_in (n : Z) : 0 ≤ n < 16 → In (hex_digit n) hextable.
Proof.
  intros Hn. unfold hex_digit. apply nth_In.
  change (length hextable) with 16%nat. lia.
Qed.

Lemma hextable_NoDup : List.NoDup hextable.
Proof. apply NoDup_ListNoDup, (bool_decide_unpack _). vm_compute. exact I. Qed.

Lemma hex_digit_inj (n m : Z) :
  0 ≤ n < 16 → 0 ≤ m < 16 → hex_digit n = hex_digit m → n = m.
Proof.
  intros Hn Hm Heq. unfold hex_digit in Heq.
  apply (proj1 (List.NoDup_nth hextable "0"%char) hextable_NoDup) in Heq;
    change (length hextable) with 16%nat; lia.
Qed.

Lemma EncodeToString_length (b : list byte) :
  String.length (EncodeToString b) = (2 * length b)%nat.
Proof. induction b as [|v b IH]; simpl; [done|]. rewrite IH. lia. Qed.

Lemma EncodeToString_digits (b : list byte) :
  Forall (λ c, In c hextable) (list_ascii_of_string (EncodeToString b)).
Proof.
  induction b as [|v b IH]; simpl; [constructor|].
  destruct (nibbles_range v) as (Hhi & Hlo & _).
  constructor; [by apply hex_digit_in|].
  constructor; [by apply hex_digit_in|done].
Qed.

Lemma EncodeToString_inj (b b' : list byte) :
  EncodeToString b = EncodeToString b' → b = b'.
Proof.
  revert b'. induction b as [|v b IH]; intros [|v' b']; simpl; try done.
  intros [= Hhi Hlo Hrest]. f_equal; [|by apply IH].
  destruct (nibbles_range v) as (Hh & Hl & Hv).
  destruct (nibbles_range v') as (Hh' & Hl' & Hv').
  apply hex_digit_inj in Hhi; [|done..].
  apply hex_digit_inj in Hlo; [|done..].
  rewrite <- (to_byte_val v), <- (to_byte_val v'). f_equal. lia.
Qed.

Lemma string_from_Hex (h : list byte) :
  string_from (drivechain.Hash_Hex h) 2 = Returns (EncodeToString h).
Proof.
  unfold string_from, drivechain.Hash_Hex, hexutil_Encode.
  rewrite decide_True by (simpl; lia). done.
Qed.

Section engine_arguments.

Context {Call : Type}.
Variable verify_bmm : string → string → bool.
Variable is_outpoint_spent : string → bool.
Variable attemptBmm : string → string → Z → Call.

(** X19. [VerifyBmm] never panics on the slicing of the hex strings, and
    it asks the engine with the previous mainchain block hash first and the
    critical hash second, each without the prefix [0x]: two lowercase hex
    digits per byte, 64 characters for a 32-byte hash. *)
Theorem VerifyBmm_arguments (prevMainBlockHash criticalHash : list byte) :
  VerifyBmm verify_bmm prevMainBlockHash criticalHash
  = Returns (verify_bmm (EncodeToString prevMainBlockHash)
                        (EncodeToString criticalHash))
  ∧ String.length (EncodeToString prevMainBlockHash)
    = (2 * length prevMainBlockHash)%nat
  ∧ String.length (EncodeToString criticalHash)
    = (2 * length criticalHash)%nat
  ∧ Forall (λ c, In c hextable)
      (list_ascii_of_string (EncodeToString prevMainBlockHash))
  ∧ Forall (λ c, In c hextable)
      (list_ascii_of_string (EncodeToString criticalHash)).
Proof.
  unfold VerifyBmm. rewrite !string_from_Hex, !bind_Returns.
  repeat split; auto using EncodeToString_length, EncodeToString_digits.
Qed.

(** X20. [AttemptBmm] never panics on the slicing either, and it bids with
    the header hash as critical hash first and the previous mainchain block
    hash second, both without the prefix [0x], and with the amount
    unchanged. *)
Theorem AttemptBmm_arguments
    (headerHash prevMainBlockHash : list byte) (amount : Z) :
  AttemptBmm attemptBmm headerHash prevMainBlockHash amount
  = Returns (attemptBmm (EncodeToString headerHash)
                        (EncodeToString prevMainBlockHash) amount)
  ∧ String.length (EncodeToString headerHash) = (2 * length headerHash)%nat
  ∧ String.length (EncodeToString prevMainBlockHash)
    = (2 * length prevMainBlockHash)%nat.
Proof.
  unfold AttemptBmm. rewrite !string_from_Hex, !bind_Returns.
  repeat split; auto using EncodeToString_length.
Qed.

(** X21. Different hashes reach the engine as different strings: the hex
    form passed by [IsWithdrawalSpent], and the form without prefix passed
    by [VerifyBmm] and [AttemptBmm], each determine the hash. *)
Theorem Hash_Hex_inj (h h' : list byte) :
  (Hash_Hex h = Hash_Hex h' ↔ h = h')
  ∧ (string_from (Hash_Hex h) 2 = string_from (Hash_Hex h') 2 ↔ h = h').
Proof.
  split; (split; [|by intros ->]).
  - unfold Hash_Hex, hexutil_Encode. simpl. intros [= Heq].
    by apply EncodeToString_inj.
  - rewrite !string_from_Hex. intros [= Heq]. by apply EncodeToString_inj.
Qed.

(** X22. [IsWithdrawalSpent] keeps the prefix [0x] that [VerifyBmm] and
    [AttemptBmm] strip: it asks the engine with a string two characters
    longer than the digits, and that string is never the digit string of
    any hash. *)
Theorem IsWithdrawalSpent_prefixed (id h : list byte) :
  IsWithdrawalSpent is_outpoint_spent id
  = is_outpoint_spent ("0x" +:+ EncodeToString id)
  ∧ String.length ("0x" +:+ EncodeToString id) = (2 * length id + 2)%nat
  ∧ "0x" +:+ EncodeToString id ≠ EncodeToString h.
Proof.
  split; [done|]. split.
  - change (S (S (String.length (EncodeToString id)))
            = (2 * length id + 2)%nat).
    rewrite EncodeToString_length. lia.
  - destruct h as [|v h]; simpl; [done|]. intros [= _ Hx].
    destruct (nibbles_range v) as (_ & Hlo & _).
    pose proof (hex_digit_in _ Hlo) as Hin. rewrite <- Hx in Hin.
    vm_compute in Hin. intuition discriminate.
Qed.

End engine_arguments.

(** ** Unit conversion, through the functions that perform it *)

Lemma DecodeWithdrawal_amount (value : Z) (data : list byte) :
  length data = 28%nat →
  ∃ w, DecodeWithdrawal (Some value) data = Returns (w, None)
       ∧ Withdrawal_Amount w = Some (value / 10000000000).
Proof.
  intros Hlen. rewrite DecodeWithdrawal_good_length by done. eauto.
Qed.

Section conversion.

Context {Hash : Type} `{Countable Hash} (HexToHash : string → Hash).

(** C5, as amended. Up: for a record whose amount [x] is below [2^63],
    [GetUnspentWithdrawals] stores the amount [x * 10^10], and
    [DecodeWithdrawal] turns that value back into the amount [x] exactly.
    Down: for every integer value [v], [DecodeWithdrawal] returns the floor
    of [v / 10^10]; scaling it back up gives [v] minus the remainder, which
    is strictly less than [v] when [v] is not a multiple of [10^10]. The
    floor is the quotient truncated toward zero when [v >= 0], and one
    less than it when [v] is negative and not a multiple of [10^10]. The
    value 1 converts down to 0. *)
Theorem unit_conversion_roundtrip
    (pre post : list CWithdrawal) (c : CWithdrawal)
    (data : list byte) (v : Z) :
  Forall (λ c', HexToHash (cw_id c') ≠ HexToHash (cw_id c)) post →
  0 ≤ cw_amount c < 2 ^ 63 →
  length data = 28%nat →
  (∃ stored w,
     GetUnspentWithdrawals HexToHash (pre ++ c :: post)
       !! HexToHash (cw_id c) = Some stored
     ∧ Withdrawal_Amount stored = Some (cw_amount c * 10 ^ 10)
     ∧ DecodeWithdrawal (Withdrawal_Amount stored) data = Returns (w, None)
     ∧ Withdrawal_Amount w = Some (cw_amount c))
  ∧ (∃ w a,
       DecodeWithdrawal (Some v) data = Returns (w, None)
       ∧ Withdrawal_Amount w = Some a
       ∧ a * 10 ^ 10 ≤ v < (a + 1) * 10 ^ 10
       ∧ big.Mul a Satoshi = v - v mod 10 ^ 10
       ∧ (v mod 10 ^ 10 ≠ 0 → big.Mul a Satoshi < v)
       ∧ (0 ≤ v → a = Z.quot v (10 ^ 10))
       ∧ (v < 0 → v mod 10 ^ 10 ≠ 0 → a = Z.quot v (10 ^ 10) - 1))
  ∧ (∃ w, DecodeWithdrawal (Some 1) data = Returns (w, None)
          ∧ Withdrawal_Amount w = Some 0).
Proof.
  intros Hpost Hx Hlen. split; [|split].
  - exists (withdrawal_of c).
    destruct (DecodeWithdrawal_amount (cw_amount c * 10 ^ 10) data Hlen)
      as (w & Hw & Ha).
    exists w.
    rewrite (cons_middle c pre post), app_assoc.
    rewrite unspent_lookup_app, unspent_lookup_fresh by done.
    rewrite GetUnspentWithdrawals_snoc, lookup_insert_eq.
    unfold withdrawal_of. simpl. rewrite int64_of_low by done.
    repeat split; try done.
    rewrite Ha. f_equal. unfold Satoshi, big.NewInt.
    change (10 ^ 10) with 10000000000. now rewrite Z.div_mul by lia.
  - destruct (DecodeWithdrawal_amount v data Hlen) as (w & Hw & Ha).
    exists w, (v / 10000000000). split; [done|]. split; [done|].
    unfold big.Mul, Satoshi, big.NewInt. change (10 ^ 10) with 10000000000.
    repeat split; intros; Z.to_euclidean_division_equations; lia.
  - apply (DecodeWithdrawal_amount 1 data Hlen).
Qed.

End conversion.

Lemma unit_conversion_roundtrip_witness :
  ∃ w a,
    DecodeWithdrawal (Some 12345678901) high_fee_payload = Returns (w, None)
    ∧ Withdrawal_Amount w = Some a
    ∧ a * 10 ^ 10 ≤ 12345678901 < (a + 1) * 10 ^ 10
    ∧ big.Mul a Satoshi = 12345678901 - 12345678901 mod 10 ^ 10
    ∧ (12345678901 mod 10 ^ 10 ≠ 0 → big.Mul a Satoshi < 12345678901)
    ∧ (0 ≤ 12345678901 → a = Z.quot 12345678901 (10 ^ 10))
    ∧ (12345678901 < 0 → 12345678901 mod 10 ^ 10 ≠ 0 →
       a = Z.quot 12345678901 (10 ^ 10) - 1).
Proof.
  apply (unit_conversion_roundtrip (λ s, s)
           [withdrawal_aa_5] [withdrawal_bb_7] withdrawal_aa_9
           high_fee_payload 12345678901).
  - repeat constructor. simpl. discriminate.
  - simpl. lia.
  - reflexivity.
Defined.

(** C5, as stated, fails twice. The value [-1], which is not a multiple of
    [10^10], converts down to [-1], where truncation toward zero gives 0.
    And the amount [2^63] is stored by [GetUnspentWithdrawals] as
    [-(2^63) * 10^10] and converts back down to [-(2^63)], not to
    [2^63]. *)
Lemma unit_conversion_not_as_stated :
  (∃ w, DecodeWithdrawal (Some (-1)) (replicate 28 x00) = Returns (w, None)
        ∧ Withdrawal_Amount w = Some (-1)
        ∧ Z.quot (-1) (10 ^ 10) = 0)
  ∧ (is_uint64 (cw_amount withdrawal_high_amount)
     ∧ ∃ stored w,
         GetUnspentWithdrawals (λ s, s) [withdrawal_high_amount] !! "cc"
         = Some stored
         ∧ Withdrawal_Amount stored = Some (- 2 ^ 63 * 10 ^ 10)
         ∧ DecodeWithdrawal (Withdrawal_Amount stored) (replicate 28 x00)
           = Returns (w, None)
         ∧ Withdrawal_Amount w = Some (- 2 ^ 63)
         ∧ Withdrawal_Amount w ≠ Some (cw_amount withdrawal_high_amount)).
Proof.
  split.
  - eexists. split; [vm_compute; reflexivity|]. split; reflexivity.
  - split; [unfold is_uint64, uint64_max; simpl; lia|].
    eexists _, _. split; [vm_compute; reflexivity|].
    split; [reflexivity|]. split; [vm_compute; reflexivity|].
    split; [reflexivity|]. simpl. discriminate.
Qed.
